(** * Driver panel: race-state tables and the queue QR scanner

    A shallow embedding of [src/lib/fsm-types.ts] and of the event handlers
    of [src/components/queue-qr-scanner.tsx], followed by the properties the
    specification states about them.

    Conventions of the embedding:
    - a TypeScript [number] that holds an identifier, a position or a count
      is an integer [Z] (the values the component handles are small
      integers, far inside the range where doubles are exact);
    - an optional field [f?: T] is an [option T], [None] standing for
      [undefined];
    - an object literal used as a dictionary is a [gmap string _];
    - [console.log] and the callbacks received as props are recorded, in
      order, in a trace of effects; [new Date()] reads a wall clock that
      advances at every reading. *)

From stdpp Require Import base option list strings gmap fin_maps.
From Stdlib Require Import ZArith Lia.

Local Open Scope string_scope.
Local Open Scope Z_scope.

(* ===================================================================== *)
(** ** lib/fsm-types.ts *)
(* ===================================================================== *)

(** [type RaceState]: a union of six string literals. *)
Inductive RaceState : Type :=
  | RACE_OFFLINE
  | RACE_WAITING_START
  | RACE_BOARDING
  | RACE_IN_TRANSIT
  | RACE_ARRIVED_STOP
  | RACE_FINISHED.

(** The string each variant is at run time; it is the key under which the
    tables below are indexed. *)
Definition RaceState_key (s : RaceState) : string :=
  match s with
  | RACE_OFFLINE => "RACE_OFFLINE"
  | RACE_WAITING_START => "RACE_WAITING_START"
  | RACE_BOARDING => "RACE_BOARDING"
  | RACE_IN_TRANSIT => "RACE_IN_TRANSIT"
  | RACE_ARRIVED_STOP => "RACE_ARRIVED_STOP"
  | RACE_FINISHED => "RACE_FINISHED"
  end.

Definition all_RaceStates : list RaceState :=
  [RACE_OFFLINE; RACE_WAITING_START; RACE_BOARDING;
   RACE_IN_TRANSIT; RACE_ARRIVED_STOP; RACE_FINISHED].

(** [TRIP_STATUS_TO_RACE_STATE]: the entries of the object literal, in
    source order. *)
Definition TRIP_STATUS_entries : list (string * RaceState) :=
  [ ("PREP_IDLE", RACE_OFFLINE);
    ("PREP_TIMER", RACE_WAITING_START);
    ("BOARDING", RACE_BOARDING);
    ("ROUTE_READY", RACE_ARRIVED_STOP);
    ("IN_ROUTE", RACE_IN_TRANSIT);
    ("FINISHED", RACE_FINISHED) ].

Definition TRIP_STATUS_TO_RACE_STATE : gmap string RaceState :=
  list_to_map TRIP_STATUS_entries.

(** The legacy vocabulary: the six keys of the table. *)
Definition legacy_vocabulary : list string := TRIP_STATUS_entries.*1.

(** What the expression [obj[key]] evaluates to on an object literal: the
    own property when there is one, else what the literal inherits from
    [Object.prototype] under that name, else [undefined].  A property read
    never produces an error object and never throws. *)
Inductive JsValue : Type :=
  | VRace (r : RaceState)
  | VInherited (member : string)
  | VUndefined
  | VError (name : string).

Inductive Completion : Type :=
  | Normal (v : JsValue)
  | Throw (name : string).

Definition Object_prototype_members : list string :=
  [ "constructor"; "__proto__"; "hasOwnProperty"; "isPrototypeOf";
    "propertyIsEnumerable"; "toLocaleString"; "toString"; "valueOf";
    "__defineGetter__"; "__defineSetter__";
    "__lookupGetter__"; "__lookupSetter__" ].

(** [TRIP_STATUS_TO_RACE_STATE[status]], the only use the source offers of
    the table (there is no adapter function around it). *)
Definition tripStatusLookup (status : string) : Completion :=
  Normal
    match TRIP_STATUS_TO_RACE_STATE !! status with
    | Some r => VRace r
    | None =>
        if bool_decide (status ∈ Object_prototype_members)
        then VInherited status
        else VUndefined
    end.

(** How the specification words the adapter's failure: an error value named
    [UnknownStatus] is handed back. *)
Definition reports_UnknownStatus (c : Completion) : Prop :=
  c = Normal (VError "UnknownStatus").

(** [type TransitionAction]. *)
Inductive TransitionAction : Type :=
  | start_shift
  | start_trip
  | depart_stop
  | arrive_stop
  | start_boarding
  | finish_trip
  | none.

(** [interface ButtonConfig]. *)
Record ButtonConfig : Type := mkButtonConfig {
  label : string;
  action : TransitionAction;
  enabled : bool;
  stopName : option string
}.

(** [interface PanelVisibility]. *)
Record PanelVisibility : Type := mkPanelVisibility {
  mainButton : bool;
  queue : bool;
  reservation : bool;
  cash : bool
}.

(** [RACE_STATE_TO_BUTTON]: the entries of the object literal. *)
Definition RACE_STATE_TO_BUTTON_entries : list (string * ButtonConfig) :=
  [ ("RACE_OFFLINE",
       {| label := "Выйти на линию"; action := start_shift;
          enabled := true; stopName := None |});
    ("RACE_WAITING_START",
       {| label := "Начать рейс"; action := start_trip;
          enabled := true; stopName := None |});
    ("RACE_BOARDING",
       {| label := "Отправиться"; action := depart_stop;
          enabled := true; stopName := None |});
    ("RACE_IN_TRANSIT",
       {| label := "Прибыл"; action := arrive_stop;
          enabled := true; stopName := None |});
    ("RACE_ARRIVED_STOP",
       {| label := "Начать посадку"; action := start_boarding;
          enabled := true; stopName := None |});
    ("RACE_FINISHED",
       {| label := "Завершить рейс"; action := finish_trip;
          enabled := true; stopName := None |}) ].

Definition RACE_STATE_TO_BUTTON : gmap string ButtonConfig :=
  list_to_map RACE_STATE_TO_BUTTON_entries.

(** [RACE_STATE_TO_PANELS]: the entries of the object literal. *)
Definition RACE_STATE_TO_PANELS_entries : list (string * PanelVisibility) :=
  [ ("RACE_OFFLINE",
       {| mainButton := true; queue := false;
          reservation := false; cash := false |});
    ("RACE_WAITING_START",
       {| mainButton := true; queue := false;
          reservation := false; cash := false |});
    ("RACE_BOARDING",
       {| mainButton := true; queue := true;
          reservation := true; cash := true |});
    ("RACE_IN_TRANSIT",
       {| mainButton := true; queue := false;
          reservation := false; cash := true |});
    ("RACE_ARRIVED_STOP",
       {| mainButton := true; queue := true;
          reservation := true; cash := true |});
    ("RACE_FINISHED",
       {| mainButton := true; queue := false;
          reservation := false; cash := false |}) ].

Definition RACE_STATE_TO_PANELS : gmap string PanelVisibility :=
  list_to_map RACE_STATE_TO_PANELS_entries.

(** [RACE_STATE_TO_BUTTON[state]] and [RACE_STATE_TO_PANELS[state]] for a
    [state] of type [RaceState]; [None] is [undefined]. *)
Definition buttonConfigOf (state : RaceState) : option ButtonConfig :=
  RACE_STATE_TO_BUTTON !! RaceState_key state.

Definition panelVisibilityOf (state : RaceState) : option PanelVisibility :=
  RACE_STATE_TO_PANELS !! RaceState_key state.

(* ===================================================================== *)
(** ** components/queue-qr-scanner.tsx: data *)
(* ===================================================================== *)

(** The [qrData] object of a passenger. *)
Module QrData.
Record t : Type := mk {
  sum : Z;
  recipient : string;
  created_at : string
}.
End QrData.

(** [interface QueuePassenger]. *)
Module QueuePassenger.
Record t : Type := mk {
  id : Z;
  name : string;
  queuePosition : Z;
  isFirst : bool;
  count : Z;
  ticketCount : Z;
  orderNumber : Z;
  scanned : option bool;
  qrError : option bool;
  qrData : option QrData.t
}.
End QueuePassenger.

Abbreviation Passenger := QueuePassenger.t.

(** Truthiness of an optional boolean flag ([undefined] is falsy). *)
Definition truthy (flag : option bool) : bool := default false flag.

(** [{ ...p, scanned: true, qrError: false, qrData: mockQRData }]. *)
Definition spreadScanned (p : Passenger) (mockQRData : QrData.t) : Passenger :=
  QueuePassenger.mk
    (QueuePassenger.id p) (QueuePassenger.name p)
    (QueuePassenger.queuePosition p) (QueuePassenger.isFirst p)
    (QueuePassenger.count p) (QueuePassenger.ticketCount p)
    (QueuePassenger.orderNumber p)
    (Some true) (Some false) (Some mockQRData).

(** [{ ...p, qrError: true, scanned: false }]: [qrData] is not among the
    overridden fields, the spread carries it over. *)
Definition spreadError (p : Passenger) : Passenger :=
  QueuePassenger.mk
    (QueuePassenger.id p) (QueuePassenger.name p)
    (QueuePassenger.queuePosition p) (QueuePassenger.isFirst p)
    (QueuePassenger.count p) (QueuePassenger.ticketCount p)
    (QueuePassenger.orderNumber p)
    (Some false) (Some true) (QueuePassenger.qrData p).

(** The three-valued status the specification speaks of, read off the two
    flags the way the component reads them: [qrError] is tested first
    wherever both are looked at, and [!p.scanned && !p.qrError] is what
    makes a passenger eligible for a scan. *)
Inductive ScanStatus : Type := Pending | Scanned | Error.

Definition scanStatus (p : Passenger) : ScanStatus :=
  if truthy (QueuePassenger.qrError p) then Error
  else if truthy (QueuePassenger.scanned p) then Scanned
  else Pending.

(** The props the handlers read.  The callbacks [onUpdate], [onAccept],
    [onReject], [onReturn] are effects (below); [t] only feeds labels. *)
Record Props : Type := mkProps {
  passengers : list Passenger;
  disabled : bool;
  language : string
}.

(** The three [useState] cells. *)
Record ScannerState : Type := mkScannerState {
  showScanner : bool;
  currentScanId : option Z;
  scanLocked : bool
}.

Definition initialScannerState : ScannerState :=
  {| showScanner := false; currentScanId := None; scanLocked := false |}.

(* ===================================================================== *)
(** ** Effects: the console, the callbacks, the clock *)
(* ===================================================================== *)

Inductive Detail : Type :=
  | DNum (z : Z)
  | DStr (s : string)
  | DBool (b : bool).

Inductive Effect : Type :=
  | ConsoleLog (message : string) (payload : list (string * Detail))
  | OnUpdate (updatedPassengers : list Passenger)
  | OnAccept (passengerId : Z)
  | OnReject (passengerId : Z)
  | OnReturn (passengerId : Z).

(** What a handler runs against: the wall clock ([wallclock n] is the ISO
    string of the [n]-th reading), the number of readings so far and the
    effects performed so far, oldest first. *)
Record Io : Type := mkIo {
  wallclock : nat → string;
  ticks : nat;
  trace : list Effect
}.

Definition Act (A : Type) : Type := Io → A * Io.

#[export] Instance Act_ret : MRet Act := λ A a io, (a, io).

#[export] Instance Act_bind : MBind Act :=
  λ A B f m io, let '(a, io') := m io in f a io'.

Definition perform (e : Effect) : Act unit :=
  λ io, (tt, {| wallclock := wallclock io; ticks := ticks io;
                trace := trace io ++ [e] |}).

(** [new Date().toISOString()]. *)
Definition newDateISO : Act string :=
  λ io, (wallclock io (ticks io),
         {| wallclock := wallclock io; ticks := S (ticks io);
            trace := trace io |}).

(** [{ ...details, key: value }] on an object kept in insertion order. *)
Fixpoint objectSet (key : string) (value : Detail)
    (details : list (string * Detail)) : list (string * Detail) :=
  match details with
  | [] => [(key, value)]
  | (k, v) :: rest =>
      if String.eqb k key then (k, value) :: rest
      else (k, v) :: objectSet key value rest
  end.

(** [logFSMEvent] of lib/fsm-types.ts. *)
Definition logFSMEvent (event : string) (details : list (string * Detail))
    : Act unit :=
  stamp ← newDateISO;
  perform (ConsoleLog ("[v0] " +:+ event)
             (objectSet "timestamp" (DStr stamp) details)).

(* ===================================================================== *)
(** ** components/queue-qr-scanner.tsx: the handlers *)
(* ===================================================================== *)

(** [p => !p.scanned && !p.qrError]. *)
Definition scannable (p : Passenger) : bool :=
  negb (truthy (QueuePassenger.scanned p))
  && negb (truthy (QueuePassenger.qrError p)).

(** [p => p.id === currentScanId]. *)
Definition hasId (scanId : Z) (p : Passenger) : bool :=
  Z.eqb (QueuePassenger.id p) scanId.

(** [!currentScanId]: [null] is falsy, and so is the number [0]. *)
Definition falsyScanId (scanId : option Z) : bool :=
  match scanId with
  | None => true
  | Some n => Z.eqb n 0
  end.

(** [language === "ru" ? "Водитель Иванов И.И." : "Driver Ivanov I."]. *)
Definition driverName (lang : string) : string :=
  if String.eqb lang "ru" then "Водитель Иванов И.И." else "Driver Ivanov I.".

Definition handleStartScan (props : Props) (st : ScannerState)
    : Act ScannerState :=
  if disabled props then
    logFSMEvent "ui:blocked"
      [("action", DStr "queue_scan");
       ("reason", DStr "preparation_not_started")];;
    mret st
  else
    match List.find scannable (passengers props) with
    | None =>
        logFSMEvent "ui:blocked"
          [("action", DStr "queue_scan");
           ("reason", DStr "no_passengers_available")];;
        mret st
    | Some nextPassenger =>
        logFSMEvent "scan:start"
          [("passengerId", DNum (QueuePassenger.id nextPassenger));
           ("context", DStr "queue")];;
        mret {| showScanner := true;
                currentScanId := Some (QueuePassenger.id nextPassenger);
                scanLocked := true |}
    end.

Definition handleScanSuccess (props : Props) (st : ScannerState)
    : Act ScannerState :=
  if falsyScanId (currentScanId st) then mret st
  else
    let scanId := default 0 (currentScanId st) in
    match List.find (hasId scanId) (passengers props) with
    | None => mret st
    | Some passenger =>
        logFSMEvent "scan:result"
          [("passengerId", DNum scanId);
           ("match", DBool true);
           ("amount", DNum (QueuePassenger.ticketCount passenger * 320))];;
        created ← newDateISO;
        let mockQRData :=
          {| QrData.sum := QueuePassenger.ticketCount passenger * 320;
             QrData.recipient := driverName (language props);
             QrData.created_at := created |} in
        let updatedPassengers :=
          List.map (λ p, if hasId scanId p then spreadScanned p mockQRData
                         else p)
                   (passengers props) in
        perform (OnUpdate updatedPassengers);;
        mret {| showScanner := false; currentScanId := None;
                scanLocked := false |}
    end.

Definition handleScanError (props : Props) (st : ScannerState)
    : Act ScannerState :=
  if falsyScanId (currentScanId st) then mret st
  else
    let scanId := default 0 (currentScanId st) in
    logFSMEvent "scan:error"
      [("passengerId", DNum scanId); ("error", DStr "Invalid QR")];;
    let updatedPassengers :=
      List.map (λ p, if hasId scanId p then spreadError p else p)
               (passengers props) in
    perform (OnUpdate updatedPassengers);;
    mret {| showScanner := false; currentScanId := None;
            scanLocked := false |}.

Definition handleAccept (passengerId : Z) : Act unit :=
  logFSMEvent "accept:clicked"
    [("passengerId", DNum passengerId); ("context", DStr "queue")];;
  perform (OnAccept passengerId).

Definition handleReject (passengerId : Z) : Act unit :=
  logFSMEvent "reject:clicked"
    [("passengerId", DNum passengerId); ("context", DStr "queue")];;
  perform (OnReject passengerId).

Definition handleReturn (passengerId : Z) : Act unit :=
  logFSMEvent "return:clicked"
    [("passengerId", DNum passengerId); ("context", DStr "queue")];;
  perform (OnReturn passengerId).

(** [setShowScanner], which the dialog receives as [onOpenChange]. *)
Definition setShowScanner (open : bool) (st : ScannerState) : ScannerState :=
  {| showScanner := open; currentScanId := currentScanId st;
     scanLocked := scanLocked st |}.

(* ===================================================================== *)
(** ** components/queue-qr-scanner.tsx: what is rendered *)
(* ===================================================================== *)

(** [p => p.scanned && p.qrData && !p.qrError]. *)
Definition awaitingDecision (p : Passenger) : bool :=
  truthy (QueuePassenger.scanned p)
  && bool_decide (is_Some (QueuePassenger.qrData p))
  && negb (truthy (QueuePassenger.qrError p)).

(** The cards carrying the accept and reject buttons:
    [passengers.filter(p => p.scanned && p.qrData && !p.qrError)]. *)
Definition decisionCards (props : Props) : list Passenger :=
  List.filter awaitingDecision (passengers props).

(** The cells of the grid: [passengers.slice(0, 5)]. *)
Definition gridCells (props : Props) : list Passenger :=
  take 5 (passengers props).

(** A cell carries the return button when
    [passenger.qrError || (passenger.scanned && passenger.qrData)]. *)
Definition returnOffered (p : Passenger) : bool :=
  truthy (QueuePassenger.qrError p)
  || (truthy (QueuePassenger.scanned p)
      && bool_decide (is_Some (QueuePassenger.qrData p))).

(** The main scan button is rendered when
    [!passengers.some(p => p.scanned && p.qrData && !p.qrError)], with
    [disabled={disabled || scanLocked}]. *)
Definition scanButtonRendered (props : Props) : bool :=
  negb (existsb awaitingDecision (passengers props)).

Definition scanButtonDisabled (props : Props) (st : ScannerState) : bool :=
  disabled props || scanLocked st.

(** What the driver and the dialog can do to the rendered component.  A
    card or a cell is addressed by its place in the rendered list. *)
Inductive UiEvent : Type :=
  | ScanButtonClick
  | AcceptClick (card : nat)
  | RejectClick (card : nat)
  | ReturnClick (cell : nat)
  | DialogConfirm
  | DialogInvalid
  | DialogQRNotFound
  | DialogOpenChange (open : bool).

(** The wiring of the JSX: a button that is not rendered, or is rendered
    disabled, runs no handler; the dialog's [onConfirm] is
    [handleScanSuccess], its [onInvalid] and [onQRNotFound] are
    [handleScanError], its [onOpenChange] is [setShowScanner]. *)
Definition dispatch (props : Props) (ev : UiEvent) (st : ScannerState)
    : Act ScannerState :=
  match ev with
  | ScanButtonClick =>
      if scanButtonRendered props && negb (scanButtonDisabled props st)
      then handleStartScan props st
      else mret st
  | AcceptClick card =>
      match decisionCards props !! card with
      | Some passenger =>
          if disabled props then mret st
          else (handleAccept (QueuePassenger.id passenger);; mret st)
      | None => mret st
      end
  | RejectClick card =>
      match decisionCards props !! card with
      | Some passenger =>
          if disabled props then mret st
          else (handleReject (QueuePassenger.id passenger);; mret st)
      | None => mret st
      end
  | ReturnClick cell =>
      match gridCells props !! cell with
      | Some passenger =>
          if returnOffered passenger && negb (disabled props)
          then (handleReturn (QueuePassenger.id passenger);; mret st)
          else mret st
      | None => mret st
      end
  | DialogConfirm => handleScanSuccess props st
  | DialogInvalid => handleScanError props st
  | DialogQRNotFound => handleScanError props st
  | DialogOpenChange open => mret (setShowScanner open st)
  end.

(* ===================================================================== *)
(** ** The component inside its owner *)
(* ===================================================================== *)

(** Modelled from the spec: the owner of the passenger list, the parent
    component that passes [passengers] and [onUpdate] and whose code is not
    in src/.  Section 6 of the specification gives [onUpdate] replace
    semantics: the list it carries becomes the list.  What the owner does
    on [onAccept], [onReject] and [onReturn] is not modelled. *)
Definition ownerList (effects : list Effect) (current : list Passenger)
    : list Passenger :=
  fold_left (λ acc e, match e with OnUpdate l => l | _ => acc end)
            effects current.

(** The passenger list its owner holds, the component's state, and the
    outside world. *)
Record World : Type := mkWorld {
  roster : list Passenger;
  session : ScannerState;
  io : Io
}.

(** One handler run: the handler sees the current list as its prop, the
    owner takes up what [onUpdate] carried, the effects join the trace. *)
Definition react (disabledNow : bool) (languageNow : string)
    (handler : Props → ScannerState → Act ScannerState) (w : World)
    : World :=
  let props := {| passengers := roster w; disabled := disabledNow;
                  language := languageNow |} in
  let '(st', io') :=
    handler props (session w)
      {| wallclock := wallclock (io w); ticks := ticks (io w);
         trace := [] |} in
  {| roster := ownerList (trace io') (roster w);
     session := st';
     io := {| wallclock := wallclock (io w); ticks := ticks io';
              trace := trace (io w) ++ trace io' |} |}.

(** An event together with the props of the render it happens on. *)
Record Stimulus : Type := mkStimulus {
  disabledNow : bool;
  languageNow : string;
  event : UiEvent
}.

Definition step (s : Stimulus) (w : World) : World :=
  react (disabledNow s) (languageNow s) (λ props, dispatch props (event s)) w.

Definition run (stimuli : list Stimulus) (w : World) : World :=
  fold_left (λ w s, step s w) stimuli w.

(** The events of the scan protocol: the scan button and the dialog. *)
Definition scanOperation (ev : UiEvent) : bool :=
  match ev with
  | ScanButtonClick | DialogConfirm | DialogInvalid | DialogQRNotFound
  | DialogOpenChange _ => true
  | AcceptClick _ | RejectClick _ | ReturnClick _ => false
  end.

(** The specification's [resolveScan(outcome)].  In the component the
    outcome arrives as the dialog calling [onConfirm] or
    [onInvalid]/[onQRNotFound]; [handleScanSuccess] declares no parameter,
    so whatever values a success carries are dropped at the call. *)
Inductive ScanOutcome : Type :=
  | Success (sum : Z) (recipient : string)
  | Failure.

Definition resolveScan (outcome : ScanOutcome) (props : Props)
    (st : ScannerState) : Act ScannerState :=
  match outcome with
  | Success _ _ => handleScanSuccess props st
  | Failure => handleScanError props st
  end.

(** The specification's invariants, as predicates on the embedding. *)

(** [qrData] is present iff the status is [Scanned]. *)
Definition qrDataIffScanned (p : Passenger) : Prop :=
  is_Some (QueuePassenger.qrData p) ↔ scanStatus p = Scanned.

(** The session counts as active when [currentScanId] is truthy. *)
Definition activeScanId (st : ScannerState) (scanId : Z) : Prop :=
  currentScanId st = Some scanId ∧ scanId ≠ 0.

(** A world the scan protocol keeps in order: identifiers are unique, every
    passenger satisfies the [qrData] invariant, and the passenger a scan is
    in flight for is still [Pending]. *)
Definition protocolInvariant (w : World) : Prop :=
  NoDup (QueuePassenger.id <$> roster w)
  ∧ Forall qrDataIffScanned (roster w)
  ∧ ∀ scanId p, currentScanId (session w) = Some scanId →
      p ∈ roster w → QueuePassenger.id p = scanId → scanStatus p = Pending.

(** The list is in queue order. *)
Definition queueOrdered (l : list Passenger) : Prop :=
  ∀ i j p q, (i ≤ j)%nat → l !! i = Some p → l !! j = Some q →
    QueuePassenger.queuePosition p ≤ QueuePassenger.queuePosition q.

(** Concrete data for the examples. *)
Definition fixedClock : nat → string := λ _, "2025-01-01T00:00:00.000Z".

Definition freshIo : Io := {| wallclock := fixedClock; ticks := 0; trace := [] |}.

Definition pendingPassenger (ident position tickets : Z) : Passenger :=
  {| QueuePassenger.id := ident; QueuePassenger.name := "P";
     QueuePassenger.queuePosition := position;
     QueuePassenger.isFirst := false; QueuePassenger.count := 1;
     QueuePassenger.ticketCount := tickets;
     QueuePassenger.orderNumber := ident;
     QueuePassenger.scanned := None; QueuePassenger.qrError := None;
     QueuePassenger.qrData := None |}.

Definition lockedOn (scanId : Z) : ScannerState :=
  {| showScanner := true; currentScanId := Some scanId; scanLocked := true |}.

(** The state both resolving handlers leave behind. *)
Definition unlocked : ScannerState :=
  {| showScanner := false; currentScanId := None; scanLocked := false |}.

(** The effects a step added to the trace. *)
Definition emitted (before after : World) : list Effect :=
  drop (length (trace (io before))) (trace (io after)).

(** The console entry the accept, reject and return handlers write. *)
Definition clickLog (what : string) (passengerId : Z) (stamp : string)
    : Effect :=
  ConsoleLog ("[v0] " +:+ what)
    [("passengerId", DNum passengerId); ("context", DStr "queue");
     ("timestamp", DStr stamp)].

(* ===================================================================== *)
(** ** Further parts of the two files *)
(* ===================================================================== *)

(** Reading a key of a details object. *)
Fixpoint objectGet (key : string) (details : list (string * Detail))
    : option Detail :=
  match details with
  | [] => None
  | (k, v) :: rest => if String.eqb k key then Some v else objectGet key rest
  end.

(** The four class names a grid cell can get, in the order of the nested
    conditional: [passenger.qrError ? red : passenger.scanned &&
    passenger.qrData ? green : passenger.isFirst ? primary : secondary]. *)
Inductive CellStyle : Type :=
  | CellRed
  | CellGreen
  | CellPrimary
  | CellSecondary.

Definition cellStyle (p : Passenger) : CellStyle :=
  if truthy (QueuePassenger.qrError p) then CellRed
  else if truthy (QueuePassenger.scanned p)
          && bool_decide (is_Some (QueuePassenger.qrData p))
  then CellGreen
  else if QueuePassenger.isFirst p then CellPrimary
  else CellSecondary.

(** The icons of a cell are rendered when
    [!passenger.qrError && !passenger.scanned]. *)
Definition iconsShown (p : Passenger) : bool :=
  negb (truthy (QueuePassenger.qrError p))
  && negb (truthy (QueuePassenger.scanned p)).

(** [renderPassengerIcons]: [Array(Math.min(count, 3)).fill(0).map((_, i) =>
    <User key={i} />)].  An icon is represented by its key.  [Array(n)]
    throws a RangeError when [n] is negative. *)
Inductive IconsResult : Type :=
  | Icons (keys : list Z)
  | ThrowsRangeError.

Definition renderPassengerIcons (count : Z) : IconsResult :=
  let iconCount := Z.min count 3 in
  if Z.ltb iconCount 0 then ThrowsRangeError
  else Icons (Z.of_nat <$> seq 0 (Z.to_nat iconCount)).

(** One cell of the grid: its class, whether it carries the return button,
    its icons (when rendered) and its caption
    [{passenger.queuePosition} • {passenger.count}]. *)
Record Cell : Type := mkCell {
  cellClass : CellStyle;
  cellReturn : bool;
  cellIcons : option IconsResult;
  cellCaption : Z * Z
}.

Definition renderCell (p : Passenger) : Cell :=
  {| cellClass := cellStyle p;
     cellReturn := returnOffered p;
     cellIcons := if iconsShown p
                  then Some (renderPassengerIcons (QueuePassenger.count p))
                  else None;
     cellCaption := (QueuePassenger.queuePosition p, QueuePassenger.count p) |}.

Definition renderGrid (props : Props) : list Cell :=
  renderCell <$> gridCells props.

(** The two state cells of the lock move together. *)
Definition lockCoherent (st : ScannerState) : Prop :=
  scanLocked st = true ↔ is_Some (currentScanId st).

(** How many passengers a scan could still go to. *)
Definition scannableCount (l : list Passenger) : nat :=
  length (List.filter scannable l).

(** The events that are clicks on a button of the component. *)
Definition buttonClick (ev : UiEvent) : bool :=
  match ev with
  | ScanButtonClick | AcceptClick _ | RejectClick _ | ReturnClick _ => true
  | DialogConfirm | DialogInvalid | DialogQRNotFound | DialogOpenChange _ =>
      false
  end.

(** The events wired to [handleScanSuccess] and [handleScanError]. *)
Definition resolvingEvent (ev : UiEvent) : bool :=
  match ev with
  | DialogConfirm | DialogInvalid | DialogQRNotFound => true
  | _ => false
  end.

(** Whether an effect is a call of [onUpdate]. *)
Definition isOnUpdate (e : Effect) : bool :=
  match e with
  | OnUpdate _ => true
  | _ => false
  end.

(** [Number.isSafeInteger]: the integers a double holds exactly and
    unambiguously.  The product [passenger.ticketCount * 320] of
    [handleScanSuccess] is a product of doubles; it is the integer product,
    as embedded, whenever that product is a safe integer. *)
Definition safeInteger (n : Z) : Prop :=
  - (2 ^ 53 - 1) ≤ n ≤ 2 ^ 53 - 1.

(** The console entries of the scan handlers. *)
Definition blockedLog (reason stamp : string) : Effect :=
  ConsoleLog "[v0] ui:blocked"
    [("action", DStr "queue_scan"); ("reason", DStr reason);
     ("timestamp", DStr stamp)].

Definition scanStartLog (passengerId : Z) (stamp : string) : Effect :=
  ConsoleLog "[v0] scan:start"
    [("passengerId", DNum passengerId); ("context", DStr "queue");
     ("timestamp", DStr stamp)].

Definition scanResultLog (passengerId amount : Z) (stamp : string) : Effect :=
  ConsoleLog "[v0] scan:result"
    [("passengerId", DNum passengerId); ("match", DBool true);
     ("amount", DNum amount); ("timestamp", DStr stamp)].

Definition scanErrorLog (passengerId : Z) (stamp : string) : Effect :=
  ConsoleLog "[v0] scan:error"
    [("passengerId", DNum passengerId); ("error", DStr "Invalid QR");
     ("timestamp", DStr stamp)].

Ltac run_act :=
  unfold logFSMEvent, perform, newDateISO, mbind, Act_bind, mret, Act_ret;
  simpl.

(* ===================================================================== *)
(** ** Properties of the tables *)
(* ===================================================================== *)

Lemma all_RaceStates_complete (s : RaceState) : s ∈ all_RaceStates.
Proof. destruct s; unfold all_RaceStates; set_solver. Qed.

Lemma legacy_vocabulary_NoDup : NoDup legacy_vocabulary.
Proof. compute_done. Qed.

Lemma tripStatus_own (k : string) (r : RaceState) :
  (k, r) ∈ TRIP_STATUS_entries → TRIP_STATUS_TO_RACE_STATE !! k = Some r.
Proof.
  intros Hin. unfold TRIP_STATUS_TO_RACE_STATE.
  apply elem_of_list_to_map_1; [exact legacy_vocabulary_NoDup | exact Hin].
Qed.

Lemma tripStatus_absent (k : string) :
  k ∉ legacy_vocabulary → TRIP_STATUS_TO_RACE_STATE !! k = None.
Proof.
  intros Hout. unfold TRIP_STATUS_TO_RACE_STATE.
  apply not_elem_of_list_to_map_1. exact Hout.
Qed.

(** C9. Each of the six race states has an entry in the button table and an
    entry in the panel table, and the action of its button entry is not
    [none]; the six states are all there are. *)
Theorem race_tables_total (s : RaceState) :
  (∃ cfg, buttonConfigOf s = Some cfg ∧ action cfg ≠ none)
  ∧ (∃ panels, panelVisibilityOf s = Some panels)
  ∧ s ∈ all_RaceStates ∧ length all_RaceStates = 6%nat.
Proof.
  split; [| split; [| split; [apply all_RaceStates_complete | reflexivity]]].
  - destruct s; eexists; (split; [vm_compute; reflexivity | discriminate]).
  - destruct s; eexists; vm_compute; reflexivity.
Qed.

(** C7 (as stated, refuted). A status outside the vocabulary gets
    [undefined] from the table, not an [UnknownStatus] error. *)
Lemma tripStatusLookup_unknown_is_undefined :
  ("UNKNOWN" ∉ legacy_vocabulary)
  ∧ tripStatusLookup "UNKNOWN" = Normal VUndefined
  ∧ ¬ reports_UnknownStatus (tripStatusLookup "UNKNOWN").
Proof.
  split; [compute_done |]. split; [vm_compute; reflexivity |].
  unfold reports_UnknownStatus. vm_compute. discriminate.
Qed.

(** C7 (amended). Every key of the vocabulary reads as the race state the
    table gives it.  A string outside the vocabulary reads, without any
    error being reported or thrown, as [undefined], or as the member every
    object inherits under that name when it is one of the names of
    [Object.prototype]; it never reads as a race state. *)
Theorem tripStatusLookup_outside_vocabulary (status : string) :
  status ∉ legacy_vocabulary →
  Forall (λ entry, tripStatusLookup entry.1 = Normal (VRace entry.2))
         TRIP_STATUS_entries
  ∧ (tripStatusLookup status = Normal VUndefined
     ∨ (status ∈ Object_prototype_members
        ∧ tripStatusLookup status = Normal (VInherited status)))
  ∧ ¬ reports_UnknownStatus (tripStatusLookup status)
  ∧ (∀ r, tripStatusLookup status ≠ Normal (VRace r))
  ∧ (∀ e, tripStatusLookup status ≠ Throw e).
Proof.
  intros Hout. split.
  { apply Forall_forall. intros [k r] Hin. unfold tripStatusLookup. simpl.
    by rewrite (tripStatus_own k r Hin). }
  unfold tripStatusLookup, reports_UnknownStatus.
  rewrite (tripStatus_absent status Hout).
  case_bool_decide as Hproto.
  - split; [right; done |]. repeat split; intros; discriminate.
  - split; [left; done |]. repeat split; intros; discriminate.
Qed.

Lemma tripStatusLookup_outside_vocabulary_witness :
  Forall (λ entry, tripStatusLookup entry.1 = Normal (VRace entry.2))
         TRIP_STATUS_entries
  ∧ (tripStatusLookup "UNKNOWN" = Normal VUndefined
     ∨ ("UNKNOWN" ∈ Object_prototype_members
        ∧ tripStatusLookup "UNKNOWN" = Normal (VInherited "UNKNOWN")))
  ∧ ¬ reports_UnknownStatus (tripStatusLookup "UNKNOWN")
  ∧ (∀ r, tripStatusLookup "UNKNOWN" ≠ Normal (VRace r))
  ∧ (∀ e, tripStatusLookup "UNKNOWN" ≠ Throw e).
Proof.
  apply (tripStatusLookup_outside_vocabulary "UNKNOWN"). compute_done.
Defined.

(* ===================================================================== *)
(** ** What one handler run does to the world *)
(* ===================================================================== *)

Lemma activeScanId_truthy (st : ScannerState) (c : Z) :
  activeScanId st c →
  falsyScanId (currentScanId st) = false ∧ default 0 (currentScanId st) = c.
Proof.
  intros [Hc Hnz]. rewrite Hc. simpl. split; [| reflexivity].
  apply Z.eqb_neq. exact Hnz.
Qed.

Lemma not_falsy_active (st : ScannerState) :
  falsyScanId (currentScanId st) = false →
  ∃ c, activeScanId st c.
Proof.
  unfold activeScanId. destruct (currentScanId st) as [c |]; simpl; [| done].
  intros Hc. exists c. split; [done |]. by apply Z.eqb_neq.
Qed.

Lemma react_handleScanError_active d lang (w : World) (c : Z) :
  activeScanId (session w) c →
  roster (react d lang handleScanError w)
    = List.map (λ p, if hasId c p then spreadError p else p) (roster w)
  ∧ session (react d lang handleScanError w) = unlocked.
Proof.
  intros Hact. destruct (activeScanId_truthy _ _ Hact) as [Hf Hd].
  unfold react, handleScanError. simpl. rewrite Hf, Hd. run_act. done.
Qed.

Lemma react_handleScanError_inactive d lang (w : World) :
  falsyScanId (currentScanId (session w)) = true →
  roster (react d lang handleScanError w) = roster w
  ∧ session (react d lang handleScanError w) = session w.
Proof.
  intros Hf. unfold react, handleScanError. simpl. rewrite Hf. run_act. done.
Qed.

Lemma react_handleScanSuccess_found d lang (w : World) (c : Z) (p : Passenger) :
  activeScanId (session w) c →
  List.find (hasId c) (roster w) = Some p →
  roster (react d lang handleScanSuccess w)
    = List.map
        (λ q, if hasId c q
              then spreadScanned q
                     {| QrData.sum := QueuePassenger.ticketCount p * 320;
                        QrData.recipient := driverName lang;
                        QrData.created_at :=
                          wallclock (io w) (S (ticks (io w))) |}
              else q)
        (roster w)
  ∧ session (react d lang handleScanSuccess w) = unlocked.
Proof.
  intros Hact Hfind. destruct (activeScanId_truthy _ _ Hact) as [Hf Hd].
  unfold react, handleScanSuccess. simpl. rewrite Hf, Hd, Hfind. run_act. done.
Qed.

Lemma react_handleScanSuccess_inactive d lang (w : World) :
  falsyScanId (currentScanId (session w)) = true →
  roster (react d lang handleScanSuccess w) = roster w
  ∧ session (react d lang handleScanSuccess w) = session w.
Proof.
  intros Hf. unfold react, handleScanSuccess. simpl. rewrite Hf. run_act. done.
Qed.

Lemma react_handleScanSuccess_missing d lang (w : World) (c : Z) :
  activeScanId (session w) c →
  List.find (hasId c) (roster w) = None →
  roster (react d lang handleScanSuccess w) = roster w
  ∧ session (react d lang handleScanSuccess w) = session w.
Proof.
  intros Hact Hfind. destruct (activeScanId_truthy _ _ Hact) as [Hf Hd].
  unfold react, handleScanSuccess. simpl. rewrite Hf, Hd, Hfind. run_act. done.
Qed.

Lemma react_handleStartScan_disabled lang (w : World) :
  roster (react true lang handleStartScan w) = roster w
  ∧ session (react true lang handleStartScan w) = session w.
Proof. unfold react, handleStartScan. simpl. run_act. done. Qed.

Lemma react_handleStartScan_none lang (w : World) :
  List.find scannable (roster w) = None →
  roster (react false lang handleStartScan w) = roster w
  ∧ session (react false lang handleStartScan w) = session w.
Proof.
  intros Hfind. unfold react, handleStartScan. simpl. rewrite Hfind.
  run_act. done.
Qed.

Lemma react_handleStartScan_some lang (w : World) (p : Passenger) :
  List.find scannable (roster w) = Some p →
  roster (react false lang handleStartScan w) = roster w
  ∧ session (react false lang handleStartScan w)
    = lockedOn (QueuePassenger.id p).
Proof.
  intros Hfind. unfold react, handleStartScan. simpl. rewrite Hfind.
  run_act. done.
Qed.

(* ===================================================================== *)
(** ** Resolving a scan: what changes and what does not *)
(* ===================================================================== *)

Section TargetedMap.
Variable scanId : Z.
Variable change : Passenger → Passenger.
Hypothesis change_id : ∀ p, QueuePassenger.id (change p) = QueuePassenger.id p.

Local Abbreviation update :=
  (λ p : Passenger, if hasId scanId p then change p else p).

Lemma targeted_map_length (l : list Passenger) :
  length (List.map update l) = length l.
Proof. apply length_map. Qed.

Lemma targeted_map_ids (l : list Passenger) :
  QueuePassenger.id <$> List.map update l = QueuePassenger.id <$> l.
Proof.
  induction l as [| p l IH]; [reflexivity |].
  simpl. f_equal; [| exact IH].
  destruct (hasId scanId p); [apply change_id | reflexivity].
Qed.

Lemma targeted_map_lookup (l : list Passenger) (i : nat) (p : Passenger) :
  l !! i = Some p → List.map update l !! i = Some (update p).
Proof. intros Hi. change (List.map update l) with (update <$> l).
       by rewrite list_lookup_fmap, Hi. Qed.

Lemma targeted_map_other (l : list Passenger) (i : nat) (p : Passenger) :
  l !! i = Some p → QueuePassenger.id p ≠ scanId →
  List.map update l !! i = Some p.
Proof.
  intros Hi Hne. rewrite (targeted_map_lookup l i p Hi). f_equal.
  unfold hasId. by apply Z.eqb_neq in Hne as ->.
Qed.

Lemma targeted_map_hit (l : list Passenger) (i : nat) (p : Passenger) :
  l !! i = Some p → QueuePassenger.id p = scanId →
  List.map update l !! i = Some (change p).
Proof.
  intros Hi Heq. rewrite (targeted_map_lookup l i p Hi). f_equal.
  unfold hasId. by apply Z.eqb_eq in Heq as ->.
Qed.
End TargetedMap.

(** Every way a resolving handler can go. *)
Lemma react_resolveScan_cases (outcome : ScanOutcome) d lang (w : World) :
  let w' := react d lang (resolveScan outcome) w in
  (roster w' = roster w ∧ session w' = session w)
  ∨ ∃ c change,
      activeScanId (session w) c
      ∧ (∀ p, QueuePassenger.id (change p) = QueuePassenger.id p)
      ∧ roster w' = List.map (λ p, if hasId c p then change p else p) (roster w)
      ∧ session w' = unlocked.
Proof.
  simpl.
  destruct (falsyScanId (currentScanId (session w))) eqn:Hf.
  { left. destruct outcome; simpl.
    - by apply react_handleScanSuccess_inactive.
    - by apply react_handleScanError_inactive. }
  destruct (not_falsy_active _ Hf) as [c Hact].
  destruct outcome as [sum recipient |]; simpl.
  - destruct (List.find (hasId c) (roster w)) as [p |] eqn:Hfind.
    + right. exists c. eexists. split; [exact Hact |].
      split; [| exact (react_handleScanSuccess_found d lang w c p Hact Hfind)].
      reflexivity.
    + left. by apply (react_handleScanSuccess_missing d lang w c).
  - right. exists c, spreadError. split; [exact Hact |].
    split; [reflexivity |]. by apply react_handleScanError_active.
Qed.

(** C10. Whatever the outcome and whatever the session, resolving a scan
    keeps the length of the passenger list and the identifier at every
    place of it, and leaves every passenger whose identifier is not the one
    the session holds exactly as it was. *)
Theorem resolveScan_frame (outcome : ScanOutcome) (disabledNow : bool)
    (languageNow : string) (w : World) :
  let w' := react disabledNow languageNow (resolveScan outcome) w in
  length (roster w') = length (roster w)
  ∧ QueuePassenger.id <$> roster w' = QueuePassenger.id <$> roster w
  ∧ ∀ i p, roster w !! i = Some p →
      currentScanId (session w) ≠ Some (QueuePassenger.id p) →
      roster w' !! i = Some p.
Proof.
  intros w'.
  destruct (react_resolveScan_cases outcome disabledNow languageNow w)
    as [[Hr _] | (c & change & [Hc _] & Hid & Hr & _)];
    fold w' in Hr; rewrite Hr.
  - repeat split; done.
  - split; [by apply targeted_map_length |].
    split; [apply targeted_map_ids, Hid |].
    intros i p Hi Hne. apply targeted_map_other; [done |].
    intros Heq. apply Hne. by rewrite Hc, Heq.
Qed.

(* ===================================================================== *)
(** ** The lock *)
(* ===================================================================== *)

Lemma react_silent (d : bool) (lang : string)
    (handler : Props → ScannerState → Act ScannerState) (w : World) :
  (∀ props io, handler props (session w) io = (session w, io)) →
  react d lang handler w = w.
Proof.
  intros Hsilent. unfold react. rewrite Hsilent. simpl.
  destruct w as [r st [clock n tr]]. simpl. by rewrite app_nil_r.
Qed.

(** While the lock is held the scan button is disabled: pressing it runs
    nothing. *)
Lemma step_scan_click_locked (s : Stimulus) (w : World) :
  event s = ScanButtonClick → scanLocked (session w) = true → step s w = w.
Proof.
  intros Hev Hlock. unfold step. apply react_silent. intros props io.
  rewrite Hev. simpl. unfold scanButtonDisabled. rewrite Hlock.
  by rewrite orb_true_r, andb_false_r.
Qed.

Lemma step_scan_click_enabled (s : Stimulus) (w : World) :
  event s = ScanButtonClick →
  disabledNow s = false →
  scanLocked (session w) = false →
  existsb awaitingDecision (roster w) = false →
  step s w = react false (languageNow s) handleStartScan w.
Proof.
  intros Hev Hd Hlock Hnone. unfold step, react. rewrite Hev, Hd. simpl.
  unfold scanButtonRendered, scanButtonDisabled. simpl.
  by rewrite Hnone, Hlock.
Qed.

Lemma setShowScanner_keeps_lock (open : bool) (st : ScannerState) :
  scanLocked (setShowScanner open st) = scanLocked st
  ∧ currentScanId (setShowScanner open st) = currentScanId st.
Proof. done. Qed.


(** C2 (the code at the failing input). A scan is started on a one-passenger
    queue and the dialog is then dismissed: [onOpenChange(false)] only
    closes the dialog.  The session stays locked on the passenger, the scan
    button stays disabled, and pressing it does nothing. *)
Theorem dismissing_dialog_keeps_lock :
  let w0 := {| roster := [pendingPassenger 1 1 2];
               session := initialScannerState; io := freshIo |} in
  let click := mkStimulus false "en" ScanButtonClick in
  let w1 := step click w0 in
  let w2 := step (mkStimulus false "en" (DialogOpenChange false)) w1 in
  session w1 = lockedOn 1
  ∧ session w2 = {| showScanner := false; currentScanId := Some 1;
                    scanLocked := true |}
  ∧ scanButtonDisabled
      {| passengers := roster w2; disabled := false; language := "en" |}
      (session w2) = true
  ∧ step click w2 = w2.
Proof. vm_compute. repeat split; reflexivity. Qed.

(** C6 (the code at the failing input). The session is locked on passenger
    1, who is no longer in the list: [handleScanSuccess] returns at
    [if (!passenger) return] and the session stays locked, where
    [handleScanError] on the same world releases it.  And a scan started on a
    passenger whose identifier is [0] is released by neither handler,
    [!currentScanId] being true of [0]. *)
Theorem resolveScan_can_leave_lock :
  let w := {| roster := [pendingPassenger 2 2 1];
              session := lockedOn 1; io := freshIo |} in
  let w' := react false "en" (resolveScan (Success 640 "Driver X")) w in
  let z := step (mkStimulus false "en" ScanButtonClick)
             {| roster := [pendingPassenger 0 1 2];
                session := initialScannerState; io := freshIo |} in
  (session w' = lockedOn 1 ∧ roster w' = roster w ∧ emitted w w' = [])
  ∧ session (react false "en" (resolveScan Failure) w) = unlocked
  ∧ session z = lockedOn 0
  ∧ session (react false "en" (resolveScan (Success 640 "Driver X")) z)
    = lockedOn 0
  ∧ session (react false "en" (resolveScan Failure) z) = lockedOn 0.
Proof. vm_compute. repeat split; reflexivity. Qed.


(* ===================================================================== *)
(** ** Which passenger a scan selects *)
(* ===================================================================== *)

Lemma scannable_Pending (p : Passenger) :
  scannable p = true ↔ scanStatus p = Pending.
Proof.
  unfold scannable, scanStatus.
  destruct (truthy (QueuePassenger.qrError p)),
           (truthy (QueuePassenger.scanned p)); simpl; split; congruence.
Qed.

(** [Array.prototype.find]: the first element, in list order, that passes
    the test. *)
Lemma find_first {A : Type} (test : A → bool) (l : list A) (x : A) :
  List.find test l = Some x →
  ∃ i, l !! i = Some x ∧ test x = true
       ∧ ∀ j y, (j < i)%nat → l !! j = Some y → test y = false.
Proof.
  induction l as [| a l IH]; simpl; [discriminate |].
  destruct (test a) eqn:Ha.
  - intros [= ->]. exists 0%nat. repeat split; [done |]. intros j y Hj. lia.
  - intros Hfind. destruct (IH Hfind) as (i & Hi & Hx & Hbefore).
    exists (S i). repeat split; [done | done |].
    intros [| j] y Hj Hy; simpl in Hy.
    + by injection Hy as <-.
    + apply (Hbefore j y); [lia | done].
Qed.

Lemma find_exists {A : Type} (test : A → bool) (l : list A) (x : A) :
  x ∈ l → test x = true → is_Some (List.find test l).
Proof.
  intros Hin Hx. destruct (List.find test l) eqn:Hfind; [by eexists |].
  apply list_elem_of_In in Hin.
  pose proof (List.find_none test l Hfind x Hin). congruence.
Qed.

(** C4 (as stated, refuted). In a list that is not in queue order the scan
    goes to the first pending passenger of the list, here the one at
    position 2, although the one at position 1 is pending too. *)
Lemma startScan_not_minimum_position :
  let first := pendingPassenger 1 2 1 in
  let second := pendingPassenger 2 1 1 in
  let w := {| roster := [first; second];
              session := initialScannerState; io := freshIo |} in
  let w' := step (mkStimulus false "en" ScanButtonClick) w in
  session w' = lockedOn (QueuePassenger.id first)
  ∧ scanStatus second = Pending
  ∧ QueuePassenger.queuePosition second < QueuePassenger.queuePosition first.
Proof. vm_compute. repeat split; reflexivity. Qed.

(** C4 (amended). When some passenger is pending, a scan that starts goes to
    the first pending passenger in list order, passing over the scanned and
    the errored ones before it; when the list is in queue order that
    passenger has the least queue position among the pending ones.  The
    scan button, when it is rendered and enabled, runs exactly this. *)
Theorem startScan_selects_first_pending (languageNow : string) (w : World)
    (candidate : Passenger) :
  candidate ∈ roster w →
  scanStatus candidate = Pending →
  ∃ p i,
    session (react false languageNow handleStartScan w)
      = lockedOn (QueuePassenger.id p)
    ∧ roster w !! i = Some p
    ∧ scanStatus p = Pending
    ∧ (∀ j q, (j < i)%nat → roster w !! j = Some q → scanStatus q ≠ Pending)
    ∧ (queueOrdered (roster w) →
       ∀ q, q ∈ roster w → scanStatus q = Pending →
         QueuePassenger.queuePosition p ≤ QueuePassenger.queuePosition q)
    ∧ (scanLocked (session w) = false →
       existsb awaitingDecision (roster w) = false →
       step (mkStimulus false languageNow ScanButtonClick) w
         = react false languageNow handleStartScan w).
Proof.
  intros Hin Hpending.
  destruct (find_exists scannable (roster w) candidate Hin) as [p Hfind].
  { by apply scannable_Pending. }
  destruct (find_first _ _ _ Hfind) as (i & Hi & Hp & Hbefore).
  exists p, i.
  split; [by apply react_handleStartScan_some |].
  split; [done |].
  split; [by apply scannable_Pending |].
  split.
  { intros j q Hj Hq Hq'. apply scannable_Pending in Hq'.
    rewrite (Hbefore j q Hj Hq) in Hq'. discriminate. }
  split.
  { intros Hord q Hq Hq'. apply list_elem_of_lookup in Hq as [j Hj].
    destruct (decide (i ≤ j)%nat) as [Hle | Hlt].
    - exact (Hord i j p q Hle Hi Hj).
    - apply scannable_Pending in Hq'.
      rewrite (Hbefore j q ltac:(lia) Hj) in Hq'. discriminate. }
  intros Hlock Hnone. by apply step_scan_click_enabled.
Qed.

Lemma startScan_selects_first_pending_witness :
  let errored := spreadError (pendingPassenger 1 1 2) in
  let waiting := pendingPassenger 2 2 1 in
  let w := {| roster := [errored; waiting];
              session := initialScannerState; io := freshIo |} in
  ∃ p i,
    session (react false "en" handleStartScan w)
      = lockedOn (QueuePassenger.id p)
    ∧ roster w !! i = Some p
    ∧ scanStatus p = Pending
    ∧ (∀ j q, (j < i)%nat → roster w !! j = Some q → scanStatus q ≠ Pending)
    ∧ (queueOrdered (roster w) →
       ∀ q, q ∈ roster w → scanStatus q = Pending →
         QueuePassenger.queuePosition p ≤ QueuePassenger.queuePosition q)
    ∧ (scanLocked (session w) = false →
       existsb awaitingDecision (roster w) = false →
       step (mkStimulus false "en" ScanButtonClick) w
         = react false "en" handleStartScan w).
Proof.
  apply (startScan_selects_first_pending "en"
           {| roster := [spreadError (pendingPassenger 1 1 2);
                         pendingPassenger 2 2 1];
              session := initialScannerState; io := freshIo |}
           (pendingPassenger 2 2 1)).
  - simpl. apply list_elem_of_further, list_elem_of_here.
  - reflexivity.
Defined.

(** Scenario B of the specification: positions 1 (errored) and 2 (pending);
    the scan goes to the passenger at position 2. *)
Example scenario_B :
  let w := {| roster := [spreadError (pendingPassenger 1 1 2);
                         pendingPassenger 2 2 1];
              session := initialScannerState; io := freshIo |} in
  session (step (mkStimulus false "en" ScanButtonClick) w) = lockedOn 2.
Proof. vm_compute. reflexivity. Qed.

(* ===================================================================== *)
(** ** Accept and reject *)
(* ===================================================================== *)

Lemma emitted_react (d : bool) (lang : string)
    (handler : Props → ScannerState → Act ScannerState) (w : World) :
  emitted w (react d lang handler w)
  = trace (handler {| passengers := roster w; disabled := d;
                      language := lang |}
                   (session w)
                   {| wallclock := wallclock (io w); ticks := ticks (io w);
                      trace := [] |}).2.
Proof.
  unfold emitted, react.
  destruct (handler _ (session w) _) as [st' io']. simpl.
  by rewrite drop_app_length.
Qed.

Lemma awaitingDecision_Scanned (p : Passenger) :
  awaitingDecision p = true
  ↔ scanStatus p = Scanned ∧ is_Some (QueuePassenger.qrData p).
Proof.
  unfold awaitingDecision, scanStatus.
  rewrite !andb_true_iff, negb_true_iff, bool_decide_eq_true.
  destruct (truthy (QueuePassenger.qrError p)),
           (truthy (QueuePassenger.scanned p)); intuition congruence.
Qed.

Lemma decisionCards_Scanned (props : Props) (p : Passenger) :
  p ∈ decisionCards props
  ↔ p ∈ passengers props
    ∧ scanStatus p = Scanned ∧ is_Some (QueuePassenger.qrData p).
Proof.
  unfold decisionCards. rewrite !list_elem_of_In, List.filter_In.
  by rewrite awaitingDecision_Scanned.
Qed.

(** C5 (as stated, refuted). [handleAccept] and [handleReject] called with
    the identifier of a pending passenger log the click and raise the
    outward signal. *)
Lemma accept_reject_fire_on_pending :
  let p := pendingPassenger 1 1 2 in
  scanStatus p = Pending
  ∧ trace (handleAccept (QueuePassenger.id p) freshIo).2
    = [clickLog "accept:clicked" 1 (fixedClock 0); OnAccept 1]
  ∧ trace (handleReject (QueuePassenger.id p) freshIo).2
    = [clickLog "reject:clicked" 1 (fixedClock 0); OnReject 1].
Proof. vm_compute. repeat split; reflexivity. Qed.

(** C5 (amended). [handleAccept] and [handleReject] look at no passenger:
    for any identifier they log the click and raise [onAccept] or
    [onReject].  What keeps them from a passenger that is not scanned is the
    render: a card with the two buttons exists exactly for the passengers
    that are scanned and carry [qrData], so a click on a card either does
    nothing (no such card, or the buttons are disabled) or signals the
    identifier of such a passenger; in every case the passenger list and
    the session stay as they are. *)
Theorem accept_reject_gated_by_render (s : Stimulus) (w : World)
    (passengerId : Z) (io0 : Io) :
  let props := {| passengers := roster w; disabled := disabledNow s;
                  language := languageNow s |} in
  trace (handleAccept passengerId io0).2
    = (trace io0 ++ [clickLog "accept:clicked" passengerId
                       (wallclock io0 (ticks io0));
                     OnAccept passengerId])%list
  ∧ trace (handleReject passengerId io0).2
    = (trace io0 ++ [clickLog "reject:clicked" passengerId
                       (wallclock io0 (ticks io0));
                     OnReject passengerId])%list
  ∧ (∀ p, p ∈ decisionCards props
          ↔ p ∈ roster w
            ∧ scanStatus p = Scanned ∧ is_Some (QueuePassenger.qrData p))
  ∧ (∀ card, event s = AcceptClick card ∨ event s = RejectClick card →
       roster (step s w) = roster w
       ∧ session (step s w) = session w
       ∧ (emitted w (step s w) = []
          ∨ ∃ p stamp,
              p ∈ roster w ∧ scanStatus p = Scanned
              ∧ is_Some (QueuePassenger.qrData p)
              ∧ (emitted w (step s w)
                   = [clickLog "accept:clicked" (QueuePassenger.id p) stamp;
                      OnAccept (QueuePassenger.id p)]
                 ∨ emitted w (step s w)
                   = [clickLog "reject:clicked" (QueuePassenger.id p) stamp;
                      OnReject (QueuePassenger.id p)]))).
Proof.
  intros props.
  split; [unfold handleAccept; run_act; by rewrite <- app_assoc |].
  split; [unfold handleReject; run_act; by rewrite <- app_assoc |].
  split; [intros p; apply (decisionCards_Scanned props) |].
  intros card Hev. unfold step. rewrite emitted_react. fold props.
  unfold react. fold props.
  destruct Hev as [-> | ->]; simpl;
    (destruct (decisionCards props !! card) as [p |] eqn:Hcard;
     [| by repeat split; try left];
     destruct (disabledNow s); [by repeat split; try left |];
     unfold handleAccept, handleReject; run_act;
     split; [done |]; split; [done |];
     right; exists p; eexists;
     apply list_elem_of_lookup_2, (decisionCards_Scanned props) in Hcard
       as (Hin & Hst & Hqr);
     split; [done |]; split; [done |]; split; [done |]).
  - left. reflexivity.
  - right. reflexivity.
Qed.

(* ===================================================================== *)
(** ** The lock is held by the button, not by the handler *)
(* ===================================================================== *)





(* ===================================================================== *)
(** ** A successful scan *)
(* ===================================================================== *)

Lemma unique_id (l : list Passenger) (p q : Passenger) :
  NoDup (QueuePassenger.id <$> l) →
  p ∈ l → q ∈ l → QueuePassenger.id p = QueuePassenger.id q → p = q.
Proof.
  intros Hnd [i Hi]%list_elem_of_lookup [j Hj]%list_elem_of_lookup Heq.
  assert (i = j) as ->.
  { apply (NoDup_lookup _ i j (QueuePassenger.id p) Hnd).
    - by rewrite list_lookup_fmap, Hi.
    - by rewrite list_lookup_fmap, Hj, Heq. }
  congruence.
Qed.

Lemma find_hasId (c : Z) (l : list Passenger) (p : Passenger) :
  List.find (hasId c) l = Some p → p ∈ l ∧ QueuePassenger.id p = c.
Proof.
  intros [Hin Hid]%List.find_some. split; [by apply list_elem_of_In |].
  by apply Z.eqb_eq.
Qed.

(** C8 (as stated, refuted). The outcome carries 100 and "Driver X"; what is
    attached to the passenger, who holds two tickets, is 640 and the fixed
    driver name. *)
Lemma resolveScan_success_ignores_outcome_values :
  let w := {| roster := [pendingPassenger 1 1 2];
              session := lockedOn 1; io := freshIo |} in
  let w' := react false "en" (resolveScan (Success 100 "Driver X")) w in
  roster w'
  = [spreadScanned (pendingPassenger 1 1 2)
       {| QrData.sum := 640; QrData.recipient := "Driver Ivanov I.";
          QrData.created_at := fixedClock 1 |}]
  ∧ 640 ≠ 100
  ∧ "Driver Ivanov I." ≠ "Driver X".
Proof. vm_compute. repeat split; discriminate. Qed.

(** C8 (amended). On a session that is active on [c], with a passenger of
    that identifier in the list whose ticket count times 320 is a safe
    integer, a success releases the lock and turns every
    passenger of identifier [c] into a scanned one whose [qrData] has for
    sum 320 times the ticket count of the passenger found, for recipient the
    fixed driver name of the language, and for [created_at] the clock read
    at that moment; the values the outcome carries play no part.  With
    unique identifiers the passenger found is the only target. *)
Theorem resolveScan_success_attaches_mock (sum : Z) (recipient : string)
    (disabledNow : bool) (languageNow : string) (w : World) (c : Z)
    (p : Passenger) :
  activeScanId (session w) c →
  List.find (hasId c) (roster w) = Some p →
  safeInteger (QueuePassenger.ticketCount p * 320) →
  let w' :=
    react disabledNow languageNow (resolveScan (Success sum recipient)) w in
  let qr := {| QrData.sum := QueuePassenger.ticketCount p * 320;
               QrData.recipient := driverName languageNow;
               QrData.created_at := wallclock (io w) (S (ticks (io w))) |} in
  session w' = unlocked
  ∧ p ∈ roster w
  ∧ QueuePassenger.id p = c
  ∧ (∀ i q, roster w !! i = Some q → QueuePassenger.id q = c →
       roster w' !! i = Some (spreadScanned q qr)
       ∧ scanStatus (spreadScanned q qr) = Scanned
       ∧ QueuePassenger.qrData (spreadScanned q qr) = Some qr)
  ∧ (NoDup (QueuePassenger.id <$> roster w) →
     ∀ q, q ∈ roster w → QueuePassenger.id q = c → q = p).
Proof.
  intros Hact Hfind Hsafe w' qr.
  destruct (react_handleScanSuccess_found disabledNow languageNow w c p
              Hact Hfind) as [Hr Hs].
  destruct (find_hasId c _ p Hfind) as [Hin Hid].
  split; [exact Hs |]. split; [exact Hin |]. split; [exact Hid |]. split.
  - intros i q Hi Hq. split; [| by split].
    change (roster w')
      with (roster (react disabledNow languageNow handleScanSuccess w)).
    rewrite Hr.
    by apply (targeted_map_hit c (λ q, spreadScanned q qr)).
  - intros Hnd q Hq Hqc. apply (unique_id (roster w)); [done .. |].
    by rewrite Hid.
Qed.

Lemma resolveScan_success_attaches_mock_witness :
  let w := {| roster := [pendingPassenger 1 1 2];
              session := lockedOn 1; io := freshIo |} in
  let p := pendingPassenger 1 1 2 in
  let w' := react false "en" (resolveScan (Success 640 "Driver X")) w in
  let qr := {| QrData.sum := QueuePassenger.ticketCount p * 320;
               QrData.recipient := driverName "en";
               QrData.created_at := wallclock (io w) (S (ticks (io w))) |} in
  session w' = unlocked
  ∧ p ∈ roster w
  ∧ QueuePassenger.id p = 1
  ∧ (∀ i q, roster w !! i = Some q → QueuePassenger.id q = 1 →
       roster w' !! i = Some (spreadScanned q qr)
       ∧ scanStatus (spreadScanned q qr) = Scanned
       ∧ QueuePassenger.qrData (spreadScanned q qr) = Some qr)
  ∧ (NoDup (QueuePassenger.id <$> roster w) →
     ∀ q, q ∈ roster w → QueuePassenger.id q = 1 → q = p).
Proof.
  apply (resolveScan_success_attaches_mock 640 "Driver X" false "en"
           {| roster := [pendingPassenger 1 1 2];
              session := lockedOn 1; io := freshIo |}
           1 (pendingPassenger 1 1 2)).
  - split; [reflexivity | lia].
  - reflexivity.
  - unfold safeInteger. simpl. lia.
Defined.

(** Scenario A of the specification. *)
Example scenario_A :
  let w0 := {| roster := [pendingPassenger 1 1 2];
               session := initialScannerState; io := freshIo |} in
  let w1 := step (mkStimulus false "en" ScanButtonClick) w0 in
  let w2 := react false "en" (resolveScan (Success 640 "Driver X")) w1 in
  session w1 = lockedOn 1
  ∧ (scanStatus <$> roster w2) = [Scanned]
  ∧ (λ q, QrData.sum <$> QueuePassenger.qrData q) <$> roster w2 = [Some 640]
  ∧ session w2 = unlocked.
Proof. vm_compute. repeat split; reflexivity. Qed.

(* ===================================================================== *)
(** ** The [qrData] invariant along the scan protocol *)
(* ===================================================================== *)

Lemma qrDataIffScanned_spreadScanned (p : Passenger) (qr : QrData.t) :
  qrDataIffScanned (spreadScanned p qr).
Proof. unfold qrDataIffScanned, scanStatus. simpl. split; [done | by eexists]. Qed.

Lemma scanStatus_spreadError (p : Passenger) :
  scanStatus (spreadError p) = Error
  ∧ QueuePassenger.qrData (spreadError p) = QueuePassenger.qrData p.
Proof. done. Qed.

Lemma qrDataIffScanned_spreadError (p : Passenger) :
  qrDataIffScanned p → scanStatus p = Pending →
  qrDataIffScanned (spreadError p).
Proof.
  unfold qrDataIffScanned. intros Hp Hpending.
  destruct (scanStatus_spreadError p) as [-> ->]. rewrite Hpending in Hp.
  split; [| done]. intros Hsome. apply Hp in Hsome. discriminate.
Qed.

Lemma Pending_no_qrData (p : Passenger) :
  qrDataIffScanned p → scanStatus p = Pending →
  QueuePassenger.qrData p = None.
Proof.
  unfold qrDataIffScanned. intros Hp Hpending. rewrite Hpending in Hp.
  destruct (QueuePassenger.qrData p) as [qr |]; [| done].
  assert (Pending = Scanned) by (apply Hp; by eexists). discriminate.
Qed.

Lemma targeted_map_invariant (c : Z) (change : Passenger → Passenger)
    (l : list Passenger) :
  (∀ p, QueuePassenger.id (change p) = QueuePassenger.id p) →
  NoDup (QueuePassenger.id <$> l) →
  Forall qrDataIffScanned l →
  (∀ p, p ∈ l → QueuePassenger.id p = c → qrDataIffScanned (change p)) →
  NoDup (QueuePassenger.id
           <$> List.map (λ p, if hasId c p then change p else p) l)
  ∧ Forall qrDataIffScanned
      (List.map (λ p, if hasId c p then change p else p) l).
Proof.
  intros Hid Hnd Hall Hchange. split.
  - by rewrite targeted_map_ids.
  - apply Forall_forall. intros q Hq.
    change (q ∈ (λ p, if hasId c p then change p else p) <$> l) in Hq.
    apply list_elem_of_fmap in Hq as (p & -> & Hp).
    unfold hasId. destruct (Z.eqb_spec (QueuePassenger.id p) c) as [Heq | Hne].
    + by apply Hchange.
    + by apply (proj1 (Forall_forall _ _) Hall).
Qed.

Lemma qrDataIffScanned_pendingPassenger (ident position tickets : Z) :
  qrDataIffScanned (pendingPassenger ident position tickets).
Proof.
  unfold qrDataIffScanned. simpl. split; [intros [qr Hqr] |]; discriminate.
Qed.

Lemma idle_protocolInvariant (w : World) :
  NoDup (QueuePassenger.id <$> roster w) →
  Forall qrDataIffScanned (roster w) →
  currentScanId (session w) = None →
  protocolInvariant w.
Proof.
  intros Hnd Hall Hidle. split; [done |]. split; [done |].
  intros c p Hc. rewrite Hidle in Hc. discriminate.
Qed.

Lemma invariant_same_roster (w w' : World) :
  protocolInvariant w →
  roster w' = roster w →
  currentScanId (session w') = currentScanId (session w) →
  protocolInvariant w'.
Proof.
  intros (Hnd & Hall & Htarget) Hr Hs. unfold protocolInvariant.
  rewrite Hr, Hs. done.
Qed.

Lemma step_scan_click_cases (s : Stimulus) (w : World) :
  event s = ScanButtonClick →
  (roster (step s w) = roster w ∧ session (step s w) = session w)
  ∨ ∃ p, List.find scannable (roster w) = Some p
         ∧ roster (step s w) = roster w
         ∧ session (step s w) = lockedOn (QueuePassenger.id p).
Proof.
  intros Hev.
  destruct (scanLocked (session w)) eqn:Hlock.
  { left. by rewrite step_scan_click_locked. }
  destruct (existsb awaitingDecision (roster w)) eqn:Hnone.
  { left. unfold step, react. rewrite Hev. simpl.
    unfold scanButtonRendered. simpl. by rewrite Hnone. }
  destruct (disabledNow s) eqn:Hd.
  - left. unfold step, react. rewrite Hev, Hd. simpl.
    unfold scanButtonDisabled. simpl. by rewrite andb_false_r.
  - rewrite step_scan_click_enabled by done.
    destruct (List.find scannable (roster w)) as [p |] eqn:Hfind.
    + right. exists p. split; [done |]. by apply react_handleStartScan_some.
    + left. by apply react_handleStartScan_none.
Qed.

Lemma handleScanSuccess_preserves_invariant d lang (w : World) :
  protocolInvariant w →
  protocolInvariant (react d lang handleScanSuccess w).
Proof.
  intros Hinv.
  destruct (falsyScanId (currentScanId (session w))) eqn:Hf.
  { destruct (react_handleScanSuccess_inactive d lang w Hf) as [Hr Hs].
    apply (invariant_same_roster w); [done | done | by rewrite Hs]. }
  destruct (not_falsy_active _ Hf) as [c Hact].
  destruct (List.find (hasId c) (roster w)) as [p |] eqn:Hfind.
  - destruct (react_handleScanSuccess_found d lang w c p Hact Hfind)
      as [Hr Hs].
    destruct Hinv as (Hnd & Hall & _). unfold protocolInvariant.
    rewrite Hr, Hs.
    destruct (targeted_map_invariant c
                (λ q, spreadScanned q
                        {| QrData.sum := QueuePassenger.ticketCount p * 320;
                           QrData.recipient := driverName lang;
                           QrData.created_at :=
                             wallclock (io w) (S (ticks (io w))) |})
                (roster w) ltac:(done) Hnd Hall) as [Hnd' Hall'].
    { intros q _ _. apply qrDataIffScanned_spreadScanned. }
    split; [done |]. split; [done |]. intros c' q' Hc'. discriminate.
  - destruct (react_handleScanSuccess_missing d lang w c Hact Hfind)
      as [Hr Hs].
    apply (invariant_same_roster w); [done | done | by rewrite Hs].
Qed.

Lemma handleScanError_preserves_invariant d lang (w : World) :
  protocolInvariant w →
  protocolInvariant (react d lang handleScanError w).
Proof.
  intros Hinv.
  destruct (falsyScanId (currentScanId (session w))) eqn:Hf.
  { destruct (react_handleScanError_inactive d lang w Hf) as [Hr Hs].
    apply (invariant_same_roster w); [done | done | by rewrite Hs]. }
  destruct (not_falsy_active _ Hf) as [c Hact].
  destruct (react_handleScanError_active d lang w c Hact) as [Hr Hs].
  destruct Hinv as (Hnd & Hall & Htarget). unfold protocolInvariant.
  rewrite Hr, Hs.
  destruct (targeted_map_invariant c spreadError (roster w)
              ltac:(done) Hnd Hall) as [Hnd' Hall'].
  { intros q Hq Hqc. apply qrDataIffScanned_spreadError.
    - by apply (proj1 (Forall_forall _ _) Hall).
    - apply (Htarget c q); [by destruct Hact | done | done]. }
  split; [done |]. split; [done |]. intros c' q' Hc'. discriminate.
Qed.

Lemma step_preserves_invariant (s : Stimulus) (w : World) :
  scanOperation (event s) = true →
  protocolInvariant w →
  protocolInvariant (step s w).
Proof.
  intros Hscan Hinv. destruct (event s) as [| | | | | | | open] eqn:Hev;
    try discriminate.
  - destruct (step_scan_click_cases s w Hev)
      as [[Hr Hs] | (p & Hfind & Hr & Hs)].
    + apply (invariant_same_roster w); [done | done | by rewrite Hs].
    + destruct Hinv as (Hnd & Hall & _). unfold protocolInvariant.
      rewrite Hr, Hs. split; [done |]. split; [done |].
      intros c q [= <-] Hq Hqc.
      destruct (List.find_some _ _ Hfind) as [Hin Hsc].
      apply list_elem_of_In in Hin.
      rewrite (unique_id (roster w) q p Hnd Hq Hin Hqc).
      by apply scannable_Pending.
  - unfold step. rewrite Hev. by apply handleScanSuccess_preserves_invariant.
  - unfold step. rewrite Hev. by apply handleScanError_preserves_invariant.
  - unfold step. rewrite Hev. by apply handleScanError_preserves_invariant.
  - apply (invariant_same_roster w); [done | |];
      unfold step, react; rewrite Hev; reflexivity.
Qed.

Lemma run_preserves_invariant (stimuli : list Stimulus) (w : World) :
  Forall (λ s, scanOperation (event s) = true) stimuli →
  protocolInvariant w →
  protocolInvariant (run stimuli w).
Proof.
  intros Hall. revert w.
  induction Hall as [| s stimuli Hs _ IH]; intros w Hinv; [done |].
  unfold run. simpl. apply IH. by apply step_preserves_invariant.
Qed.

(** C1 (as stated, refuted). The session is active on a passenger that is
    scanned and carries [qrData]; every passenger satisfies the invariant.
    After the failure the passenger's status is [Error] and the [qrData] is
    still there: it was not cleared, and the invariant no longer holds. *)
Lemma handleScanError_keeps_qrData :
  let qr := {| QrData.sum := 640; QrData.recipient := "Driver Ivanov I.";
               QrData.created_at := fixedClock 0 |} in
  let p := spreadScanned (pendingPassenger 1 1 2) qr in
  let w := {| roster := [p]; session := lockedOn 1; io := freshIo |} in
  let w' := react false "en" (resolveScan Failure) w in
  Forall qrDataIffScanned (roster w)
  ∧ roster w' = [spreadError p]
  ∧ scanStatus (spreadError p) = Error
  ∧ QueuePassenger.qrData (spreadError p) = Some qr
  ∧ ¬ Forall qrDataIffScanned (roster w').
Proof.
  simpl. split.
  { repeat constructor; by eexists. }
  split; [vm_compute; reflexivity |]. split; [reflexivity |].
  split; [reflexivity |].
  intros Hall. apply Forall_inv in Hall. unfold qrDataIffScanned in Hall.
  assert (Error = Scanned) by (apply Hall; by eexists). discriminate.
Qed.

(** C1 (amended). From a world in which identifiers are unique, every
    passenger has [qrData] iff it is scanned, and the passenger a scan is in
    flight for (if any) is pending, every sequence of scan operations leads
    to a world of the same kind: in particular every passenger still has
    [qrData] iff it is scanned.  A failure on an active session gives every
    passenger of the session's identifier the status [Error] and leaves its
    [qrData] field as it was; along the protocol that field is absent, the
    passenger being pending. *)
Theorem qrData_invariant_under_scans (stimuli : list Stimulus) (w : World) :
  protocolInvariant w →
  Forall (λ s, scanOperation (event s) = true) stimuli →
  protocolInvariant (run stimuli w)
  ∧ Forall qrDataIffScanned (roster (run stimuli w))
  ∧ (∀ d lang w0 c i p,
       activeScanId (session w0) c →
       roster w0 !! i = Some p → QueuePassenger.id p = c →
       roster (react d lang (resolveScan Failure) w0) !! i
         = Some (spreadError p)
       ∧ scanStatus (spreadError p) = Error
       ∧ QueuePassenger.qrData (spreadError p) = QueuePassenger.qrData p)
  ∧ (∀ c p,
       currentScanId (session (run stimuli w)) = Some c →
       p ∈ roster (run stimuli w) → QueuePassenger.id p = c →
       QueuePassenger.qrData p = None).
Proof.
  intros Hinv Hall.
  pose proof (run_preserves_invariant stimuli w Hall Hinv) as Hrun.
  split; [exact Hrun |]. split; [apply Hrun |]. split.
  - intros d lang w0 c i p Hact Hi Hp. split; [| done].
    change (roster (react d lang (resolveScan Failure) w0))
      with (roster (react d lang handleScanError w0)).
    destruct (react_handleScanError_active d lang w0 c Hact) as [-> _].
    by apply (targeted_map_hit c spreadError).
  - intros c p Hc Hin Hp. destruct Hrun as (_ & Hq & Htarget).
    apply Pending_no_qrData.
    + by apply (proj1 (Forall_forall _ _) Hq).
    + by apply (Htarget c).
Qed.

Lemma qrData_invariant_under_scans_witness :
  let w := {| roster := [pendingPassenger 1 1 2; pendingPassenger 2 2 1];
              session := initialScannerState; io := freshIo |} in
  let stimuli := [mkStimulus false "en" ScanButtonClick;
                  mkStimulus false "en" DialogInvalid;
                  mkStimulus false "en" ScanButtonClick;
                  mkStimulus false "en" (DialogOpenChange true);
                  mkStimulus false "en" DialogConfirm] in
  protocolInvariant (run stimuli w)
  ∧ Forall qrDataIffScanned (roster (run stimuli w))
  ∧ (∀ d lang w0 c i p,
       activeScanId (session w0) c →
       roster w0 !! i = Some p → QueuePassenger.id p = c →
       roster (react d lang (resolveScan Failure) w0) !! i
         = Some (spreadError p)
       ∧ scanStatus (spreadError p) = Error
       ∧ QueuePassenger.qrData (spreadError p) = QueuePassenger.qrData p)
  ∧ (∀ c p,
       currentScanId (session (run stimuli w)) = Some c →
       p ∈ roster (run stimuli w) → QueuePassenger.id p = c →
       QueuePassenger.qrData p = None).
Proof.
  apply (qrData_invariant_under_scans
           [mkStimulus false "en" ScanButtonClick;
            mkStimulus false "en" DialogInvalid;
            mkStimulus false "en" ScanButtonClick;
            mkStimulus false "en" (DialogOpenChange true);
            mkStimulus false "en" DialogConfirm]
           {| roster := [pendingPassenger 1 1 2; pendingPassenger 2 2 1];
              session := initialScannerState; io := freshIo |}).
  - apply idle_protocolInvariant; simpl.
    + compute_done.
    + repeat (apply Forall_cons_2; [apply qrDataIffScanned_pendingPassenger |]).
      apply Forall_nil_2.
    + reflexivity.
  - repeat constructor.
Defined.

(** The run of the example above, evaluated: passenger 1 ends errored
    without [qrData], passenger 2 scanned with it. *)
Example protocol_run_example :
  let w := {| roster := [pendingPassenger 1 1 2; pendingPassenger 2 2 1];
              session := initialScannerState; io := freshIo |} in
  let stimuli := [mkStimulus false "en" ScanButtonClick;
                  mkStimulus false "en" DialogInvalid;
                  mkStimulus false "en" ScanButtonClick;
                  mkStimulus false "en" (DialogOpenChange true);
                  mkStimulus false "en" DialogConfirm] in
  (scanStatus <$> roster (run stimuli w)) = [Error; Scanned]
  ∧ (λ p, bool_decide (is_Some (QueuePassenger.qrData p)))
      <$> roster (run stimuli w) = [false; true]
  ∧ session (run stimuli w) = unlocked.
Proof. vm_compute. repeat split; reflexivity. Qed.

(* ===================================================================== *)
(** ** More on the tables of lib/fsm-types.ts *)
(* ===================================================================== *)

Lemma tripStatus_entry (k : string) (r : RaceState) :
  TRIP_STATUS_TO_RACE_STATE !! k = Some r → (k, r) ∈ TRIP_STATUS_entries.
Proof. unfold TRIP_STATUS_TO_RACE_STATE. apply elem_of_list_to_map_2. Qed.

(** X1. The legacy table is one-to-one and onto: no two legacy statuses
    share a race state, every race state is the image of a legacy status,
    and whatever race state a legacy status maps to has an entry in the
    button table and in the panel table. *)
Theorem legacy_status_bijection :
  (∀ k1 k2 r, TRIP_STATUS_TO_RACE_STATE !! k1 = Some r →
              TRIP_STATUS_TO_RACE_STATE !! k2 = Some r → k1 = k2)
  ∧ (∀ r, ∃ k, TRIP_STATUS_TO_RACE_STATE !! k = Some r)
  ∧ (∀ k r, TRIP_STATUS_TO_RACE_STATE !! k = Some r →
            is_Some (buttonConfigOf r) ∧ is_Some (panelVisibilityOf r)).
Proof.
  split; [| split].
  - intros k1 k2 r H1%tripStatus_entry H2%tripStatus_entry.
    unfold TRIP_STATUS_entries in *.
    repeat (apply elem_of_cons in H1 as [H1 | H1]; [injection H1 as -> -> |]);
      [.. | by apply elem_of_nil in H1];
      repeat (apply elem_of_cons in H2 as [H2 | H2];
              [by injection H2 as -> |]);
      by apply elem_of_nil in H2.
  - intros r. destruct r;
      [exists "PREP_IDLE" | exists "PREP_TIMER" | exists "BOARDING"
       | exists "IN_ROUTE" | exists "ROUTE_READY" | exists "FINISHED"];
      vm_compute; reflexivity.
  - intros k r _. destruct r; split; vm_compute; by eexists.
Qed.

(** X2. In the button table every state has its own action (two states with
    the same action are the same state), every button is enabled, and no
    entry sets a stop name. *)
Theorem button_table_actions_distinct (s1 s2 : RaceState) :
  ∃ c1 c2,
    buttonConfigOf s1 = Some c1 ∧ buttonConfigOf s2 = Some c2
    ∧ (action c1 = action c2 → s1 = s2)
    ∧ enabled c1 = true ∧ stopName c1 = None.
Proof.
  destruct s1, s2; do 2 eexists;
    (split; [vm_compute; reflexivity |]);
    (split; [vm_compute; reflexivity |]);
    (split; [simpl; intros; first [reflexivity | discriminate] |]);
    split; reflexivity.
Qed.

(** X3. In the panel table the main button is visible in every state, the
    queue and the reservation panel are visible together, exactly in
    RACE_BOARDING and RACE_ARRIVED_STOP, and wherever the queue is visible
    the cash panel is too. *)
Theorem panel_table_rules (s : RaceState) :
  ∃ panels,
    panelVisibilityOf s = Some panels
    ∧ mainButton panels = true
    ∧ queue panels = reservation panels
    ∧ (queue panels = true ↔ s = RACE_BOARDING ∨ s = RACE_ARRIVED_STOP)
    ∧ (queue panels = true → cash panels = true).
Proof.
  destruct s; eexists; (split; [vm_compute; reflexivity |]); simpl;
    repeat split; try discriminate; intuition (try discriminate); auto.
Qed.

(* ===================================================================== *)
(** ** [logFSMEvent] *)
(* ===================================================================== *)

Lemma objectGet_objectSet_eq (key : string) (value : Detail)
    (details : list (string * Detail)) :
  objectGet key (objectSet key value details) = Some value.
Proof.
  induction details as [| [k v] rest IH]; simpl.
  - by rewrite String.eqb_refl.
  - destruct (String.eqb k key) eqn:Hk; simpl; rewrite Hk; [done | exact IH].
Qed.

Lemma objectGet_objectSet_ne (key other : string) (value : Detail)
    (details : list (string * Detail)) :
  other ≠ key →
  objectGet other (objectSet key value details) = objectGet other details.
Proof.
  intros Hne. induction details as [| [k v] rest IH]; simpl.
  - destruct (String.eqb_spec key other) as [-> |]; [done | reflexivity].
  - destruct (String.eqb_spec k key) as [-> | Hk]; simpl.
    + destruct (String.eqb_spec key other) as [<- |]; [done | reflexivity].
    + destruct (String.eqb k other); [reflexivity | exact IH].
Qed.

Lemma objectSet_keys (key : string) (value : Detail)
    (details : list (string * Detail)) :
  (objectSet key value details).*1
  = if bool_decide (key ∈ details.*1) then details.*1
    else (details.*1 ++ [key])%list.
Proof.
  induction details as [| [k v] rest IH]; csimpl.
  - reflexivity.
  - destruct (String.eqb_spec k key) as [-> | Hk]; csimpl.
    + rewrite bool_decide_eq_true_2; [reflexivity | apply list_elem_of_here].
    + rewrite IH. case_bool_decide as Hin.
      * rewrite bool_decide_eq_true_2; [reflexivity |].
        by apply list_elem_of_further.
      * rewrite bool_decide_eq_false_2; [reflexivity |].
        intros [Heq | Hin']%elem_of_cons; [by symmetry in Heq | done].
Qed.

(** X4. Every call of [logFSMEvent] reads the clock once and writes one
    console entry, "[v0] " followed by the event name.  In the logged
    object the key [timestamp] holds that clock reading, also when the
    details had a [timestamp] of their own; every other key holds what the
    details gave it, and the keys keep their order, [timestamp] coming last
    when it is new. *)
Theorem logFSMEvent_stamps (event : string)
    (details : list (string * Detail)) (io0 : Io) :
  ∃ payload,
    logFSMEvent event details io0
    = (tt, {| wallclock := wallclock io0; ticks := S (ticks io0);
              trace := trace io0 ++ [ConsoleLog ("[v0] " +:+ event) payload]
           |})
    ∧ objectGet "timestamp" payload = Some (DStr (wallclock io0 (ticks io0)))
    ∧ (∀ k, k ≠ "timestamp" → objectGet k payload = objectGet k details)
    ∧ payload.*1
      = if bool_decide ("timestamp" ∈ details.*1) then details.*1
        else (details.*1 ++ ["timestamp"])%list.
Proof.
  eexists. split; [reflexivity |]. split; [apply objectGet_objectSet_eq |].
  split; [intros k Hk; by apply objectGet_objectSet_ne |].
  apply objectSet_keys.
Qed.

(* ===================================================================== *)
(** ** Starting a scan, and the buttons *)
(* ===================================================================== *)

(** X5. [handleStartScan] always writes exactly one console entry.  It locks
    the session, on a pending passenger of the list, exactly when the
    component is not disabled and the list has a pending passenger;
    otherwise it leaves the state as it is and the entry is [ui:blocked],
    with reason [preparation_not_started] when disabled (whatever the list
    holds) and [no_passengers_available] when nobody is pending. *)
Theorem handleStartScan_locks_iff_pending (props : Props)
    (st : ScannerState) (io0 : Io) :
  ∃ entry st',
    handleStartScan props st io0
    = (st', {| wallclock := wallclock io0; ticks := S (ticks io0);
               trace := trace io0 ++ [entry] |})
    ∧ ((disabled props = true ∧ st' = st
        ∧ entry = blockedLog "preparation_not_started"
                    (wallclock io0 (ticks io0)))
       ∨ (disabled props = false
          ∧ (∀ p, p ∈ passengers props → scanStatus p ≠ Pending)
          ∧ st' = st
          ∧ entry = blockedLog "no_passengers_available"
                      (wallclock io0 (ticks io0)))
       ∨ (disabled props = false
          ∧ ∃ p, p ∈ passengers props ∧ scanStatus p = Pending
                 ∧ st' = lockedOn (QueuePassenger.id p)
                 ∧ entry = scanStartLog (QueuePassenger.id p)
                             (wallclock io0 (ticks io0)))).
Proof.
  unfold handleStartScan. destruct (disabled props) eqn:Hd.
  { do 2 eexists. split; [reflexivity |]. left. done. }
  destruct (List.find scannable (passengers props)) as [p |] eqn:Hfind.
  - do 2 eexists. split; [reflexivity |]. right. right. split; [done |].
    exists p. destruct (List.find_some _ _ Hfind) as [Hin Hsc].
    split; [by apply list_elem_of_In |].
    split; [by apply scannable_Pending | done].
  - do 2 eexists. split; [reflexivity |]. right. left. split; [done |].
    split; [| done]. intros p Hin Hp. apply list_elem_of_In in Hin.
    apply scannable_Pending in Hp.
    rewrite (List.find_none _ _ Hfind p Hin) in Hp. discriminate.
Qed.

Lemma react_quiet (d : bool) (lang : string)
    (handler : Props → ScannerState → Act ScannerState) (w : World) :
  (∀ io, handler {| passengers := roster w; disabled := d; language := lang |}
           (session w) io = (session w, io)) →
  react d lang handler w = w.
Proof.
  intros Hquiet. unfold react. rewrite Hquiet. simpl.
  destruct w as [r st [clock n tr]]. simpl. by rewrite app_nil_r.
Qed.

Lemma emitted_same (w : World) : emitted w w = [].
Proof. unfold emitted. apply drop_all. Qed.

(** X6. While the component is disabled none of its buttons does anything:
    a click on the scan button, on accept, on reject or on return, with
    [disabled] set, leaves the world exactly as it is.  In particular the
    [preparation_not_started] entry of [handleStartScan] never comes from
    the scan button. *)
Theorem disabled_clicks_inert (s : Stimulus) (w : World) :
  disabledNow s = true →
  buttonClick (event s) = true →
  step s w = w ∧ emitted w (step s w) = [].
Proof.
  intros Hd Hclick.
  assert (Hstep : step s w = w).
  { unfold step. apply react_quiet. intros io. rewrite Hd.
    destruct (event s) as [| card | card | cell | | | |]; try discriminate;
      simpl.
    - unfold scanButtonDisabled. simpl. by rewrite andb_false_r.
    - by destruct (decisionCards _ !! card).
    - by destruct (decisionCards _ !! card).
    - destruct (gridCells _ !! cell); [| done]. by rewrite andb_false_r. }
  rewrite Hstep. split; [done | apply emitted_same].
Qed.

Lemma disabled_clicks_inert_witness :
  let w := {| roster := [pendingPassenger 1 1 2];
              session := initialScannerState; io := freshIo |} in
  let s := mkStimulus true "en" ScanButtonClick in
  step s w = w ∧ emitted w (step s w) = [].
Proof.
  apply (disabled_clicks_inert (mkStimulus true "en" ScanButtonClick)
           {| roster := [pendingPassenger 1 1 2];
              session := initialScannerState; io := freshIo |});
    reflexivity.
Defined.

(** X7. The scan button is rendered exactly when no passenger awaits a
    decision: the button and the accept/reject cards are never on screen
    together, and one of the two always is. *)
Theorem scan_button_xor_decision_cards (props : Props) :
  scanButtonRendered props = true ↔ decisionCards props = [].
Proof.
  unfold scanButtonRendered, decisionCards. rewrite negb_true_iff.
  induction (passengers props) as [| p l IH]; simpl; [done |].
  destruct (awaitingDecision p); simpl; [| exact IH].
  split; discriminate.
Qed.

(* ===================================================================== *)
(** ** What each event can do *)
(* ===================================================================== *)

Lemma handleStartScan_one_entry (props : Props) (st : ScannerState)
    (io0 : Io) :
  ∃ entry, trace (handleStartScan props st io0).2 = (trace io0 ++ [entry])%list
           ∧ isOnUpdate entry = false.
Proof.
  unfold handleStartScan. destruct (disabled props).
  { eexists. split; reflexivity. }
  destruct (List.find scannable (passengers props));
    eexists; split; reflexivity.
Qed.

Lemma emitted_handleScanError_active d lang (w : World) (c : Z) :
  activeScanId (session w) c →
  emitted w (react d lang handleScanError w)
  = [scanErrorLog c (wallclock (io w) (ticks (io w)));
     OnUpdate (roster (react d lang handleScanError w))].
Proof.
  intros Hact. destruct (react_handleScanError_active d lang w c Hact)
    as [-> _].
  destruct (activeScanId_truthy _ _ Hact) as [Hf Hd].
  rewrite emitted_react. unfold handleScanError. simpl. rewrite Hf, Hd.
  reflexivity.
Qed.

Lemma emitted_handleScanSuccess_found d lang (w : World) (c : Z)
    (p : Passenger) :
  activeScanId (session w) c →
  List.find (hasId c) (roster w) = Some p →
  emitted w (react d lang handleScanSuccess w)
  = [scanResultLog c (QueuePassenger.ticketCount p * 320)
       (wallclock (io w) (ticks (io w)));
     OnUpdate (roster (react d lang handleScanSuccess w))].
Proof.
  intros Hact Hfind.
  destruct (react_handleScanSuccess_found d lang w c p Hact Hfind) as [-> _].
  destruct (activeScanId_truthy _ _ Hact) as [Hf Hd].
  rewrite emitted_react. unfold handleScanSuccess. simpl.
  rewrite Hf, Hd, Hfind. reflexivity.
Qed.

Lemma emitted_handleScanError_inactive d lang (w : World) :
  falsyScanId (currentScanId (session w)) = true →
  emitted w (react d lang handleScanError w) = [].
Proof.
  intros Hf. rewrite emitted_react. unfold handleScanError. simpl.
  by rewrite Hf.
Qed.

Lemma emitted_handleScanSuccess_inactive d lang (w : World) :
  falsyScanId (currentScanId (session w)) = true →
  emitted w (react d lang handleScanSuccess w) = [].
Proof.
  intros Hf. rewrite emitted_react. unfold handleScanSuccess. simpl.
  by rewrite Hf.
Qed.

Lemma emitted_handleScanSuccess_missing d lang (w : World) (c : Z) :
  activeScanId (session w) c →
  List.find (hasId c) (roster w) = None →
  emitted w (react d lang handleScanSuccess w) = [].
Proof.
  intros Hact Hfind. destruct (activeScanId_truthy _ _ Hact) as [Hf Hd].
  rewrite emitted_react. unfold handleScanSuccess. simpl.
  by rewrite Hf, Hd, Hfind.
Qed.

(** X8. A resolution either does nothing at all (list, session and trace
    untouched) or does everything at once: one console entry, one call of
    [onUpdate] carrying the new list, and the session released.  On a
    success the amount written to the console is the sum attached to the
    passengers of the scan. *)
Theorem resolveScan_all_or_nothing (outcome : ScanOutcome)
    (disabledNow : bool) (languageNow : string) (w : World) :
  let w' := react disabledNow languageNow (resolveScan outcome) w in
  let stamp := wallclock (io w) (ticks (io w)) in
  (roster w' = roster w ∧ session w' = session w ∧ emitted w w' = [])
  ∨ ∃ c entry,
      activeScanId (session w) c
      ∧ emitted w w' = [entry; OnUpdate (roster w')]
      ∧ session w' = unlocked
      ∧ match outcome with
        | Failure => entry = scanErrorLog c stamp
        | Success _ _ =>
            ∃ amount,
              entry = scanResultLog c amount stamp
              ∧ ∀ q, q ∈ roster w' → QueuePassenger.id q = c →
                  QrData.sum <$> QueuePassenger.qrData q = Some amount
        end.
Proof.
  cbv zeta.
  assert (Hok : ∀ sum recipient,
            resolveScan (Success sum recipient) = handleScanSuccess)
    by reflexivity.
  assert (Hko : resolveScan Failure = handleScanError) by reflexivity.
  destruct (falsyScanId (currentScanId (session w))) eqn:Hf.
  { left. destruct outcome; rewrite ?Hok, ?Hko.
    - destruct (react_handleScanSuccess_inactive disabledNow languageNow w Hf).
      by rewrite emitted_handleScanSuccess_inactive.
    - destruct (react_handleScanError_inactive disabledNow languageNow w Hf).
      by rewrite emitted_handleScanError_inactive. }
  destruct (not_falsy_active _ Hf) as [c Hact].
  destruct outcome as [sum recipient |]; rewrite ?Hok, ?Hko.
  - destruct (List.find (hasId c) (roster w)) as [p |] eqn:Hfind.
    + right. exists c. eexists. split; [done |].
      split; [by apply emitted_handleScanSuccess_found |].
      destruct (react_handleScanSuccess_found disabledNow languageNow w c p
                  Hact Hfind) as [Hr Hs].
      split; [done |]. eexists. split; [reflexivity |].
      intros q Hq Hqc. rewrite Hr in Hq.
      apply list_elem_of_In, List.in_map_iff in Hq as (q0 & <- & Hq0).
      unfold hasId in *.
      destruct (Z.eqb_spec (QueuePassenger.id q0) c) as [Heq | Hne];
        [reflexivity | done].
    + left.
      destruct (react_handleScanSuccess_missing disabledNow languageNow w c
                  Hact Hfind).
      by rewrite (emitted_handleScanSuccess_missing _ _ _ c).
  - right. exists c. eexists. split; [done |].
    split; [by apply emitted_handleScanError_active |].
    by destruct (react_handleScanError_active disabledNow languageNow w c Hact).
Qed.

(** X9. Once a resolution has gone through, a second one changes nothing:
    should the dialog call [onConfirm], [onInvalid] or [onQRNotFound] again,
    whatever the props, the list and the session stay as the first
    resolution left them and nothing more is emitted. *)
Theorem second_resolution_is_inert (first second : ScanOutcome)
    (d1 d2 : bool) (lang1 lang2 : string) (w : World) :
  let w1 := react d1 lang1 (resolveScan first) w in
  let w2 := react d2 lang2 (resolveScan second) w1 in
  emitted w w1 ≠ [] →
  roster w2 = roster w1 ∧ session w2 = session w1 ∧ emitted w1 w2 = [].
Proof.
  intros w1 w2 Hsome.
  assert (Hs : session w1 = unlocked).
  { destruct (falsyScanId (currentScanId (session w))) eqn:Hf.
    { exfalso. apply Hsome. unfold w1. destruct first; simpl.
      - by apply emitted_handleScanSuccess_inactive.
      - by apply emitted_handleScanError_inactive. }
    destruct (not_falsy_active _ Hf) as [c Hact].
    unfold w1. destruct first as [sum recipient |]; simpl.
    - destruct (List.find (hasId c) (roster w)) as [p |] eqn:Hfind.
      + by destruct (react_handleScanSuccess_found d1 lang1 w c p Hact Hfind).
      + exfalso. apply Hsome. unfold w1. simpl.
        by apply (emitted_handleScanSuccess_missing _ _ _ c).
    - by destruct (react_handleScanError_active d1 lang1 w c Hact). }
  assert (Hf1 : falsyScanId (currentScanId (session w1)) = true)
    by (by rewrite Hs).
  unfold w2. destruct second; simpl.
  - destruct (react_handleScanSuccess_inactive d2 lang2 w1 Hf1).
    by rewrite emitted_handleScanSuccess_inactive.
  - destruct (react_handleScanError_inactive d2 lang2 w1 Hf1).
    by rewrite emitted_handleScanError_inactive.
Qed.

Lemma second_resolution_is_inert_witness :
  let w := {| roster := [pendingPassenger 1 1 2];
              session := lockedOn 1; io := freshIo |} in
  let w1 := react false "en" (resolveScan (Success 640 "Driver X")) w in
  let w2 := react false "ru" (resolveScan Failure) w1 in
  roster w2 = roster w1 ∧ session w2 = session w1 ∧ emitted w1 w2 = [].
Proof.
  apply (second_resolution_is_inert (Success 640 "Driver X") Failure
           false false "en" "ru"
           {| roster := [pendingPassenger 1 1 2];
              session := lockedOn 1; io := freshIo |}).
  vm_compute. discriminate.
Defined.

Lemma step_card_click (s : Stimulus) (w : World) :
  buttonClick (event s) = true → event s ≠ ScanButtonClick →
  roster (step s w) = roster w
  ∧ session (step s w) = session w
  ∧ Forall (λ e, isOnUpdate e = false) (emitted w (step s w)).
Proof.
  intros Hclick Hnot. unfold step. rewrite emitted_react. unfold react.
  destruct (event s) as [| card | card | cell | | | |]; try done; simpl.
  - destruct (decisionCards _ !! card); [| by repeat split].
    destruct (disabledNow s); [by repeat split |].
    unfold handleAccept; run_act. repeat split; by repeat constructor.
  - destruct (decisionCards _ !! card); [| by repeat split].
    destruct (disabledNow s); [by repeat split |].
    unfold handleReject; run_act. repeat split; by repeat constructor.
  - destruct (gridCells _ !! cell) as [p |]; [| by repeat split].
    destruct (returnOffered p && negb (disabledNow s));
      [| by repeat split].
    unfold handleReturn; run_act. repeat split; by repeat constructor.
Qed.

Lemma step_scan_click_emitted (s : Stimulus) (w : World) :
  event s = ScanButtonClick →
  Forall (λ e, isOnUpdate e = false) (emitted w (step s w)).
Proof.
  intros Hev. unfold step. rewrite emitted_react, Hev. simpl.
  destruct (scanButtonRendered _ && negb (scanButtonDisabled _ _));
    [| by constructor].
  match goal with
  | |- context [handleStartScan ?props ?st ?io0] =>
      destruct (handleStartScan_one_entry props st io0) as (entry & -> & He)
  end.
  simpl. by repeat constructor.
Qed.

Lemma step_open_change (s : Stimulus) (w : World) (open : bool) :
  event s = DialogOpenChange open →
  roster (step s w) = roster w
  ∧ session (step s w) = setShowScanner open (session w)
  ∧ emitted w (step s w) = [].
Proof.
  intros Hev. unfold step. rewrite emitted_react. unfold react.
  rewrite Hev. simpl. done.
Qed.

Lemma step_resolving (s : Stimulus) (w : World) :
  resolvingEvent (event s) = true →
  ∃ outcome,
    step s w = react (disabledNow s) (languageNow s) (resolveScan outcome) w.
Proof.
  intros Hres. unfold step.
  destruct (event s); try discriminate;
    [exists (Success 0 "") | exists Failure | exists Failure]; reflexivity.
Qed.

(** X10. The roles of the events.  Only the three resolving callbacks of the
    dialog change the passenger list or call [onUpdate]; the lock is taken
    only by a click on the scan button and given back only by a resolving
    callback. *)
Theorem event_roles (s : Stimulus) (w : World) :
  (resolvingEvent (event s) = false →
   roster (step s w) = roster w
   ∧ Forall (λ e, isOnUpdate e = false) (emitted w (step s w)))
  ∧ (scanLocked (session w) = false →
     scanLocked (session (step s w)) = true → event s = ScanButtonClick)
  ∧ (scanLocked (session w) = true →
     scanLocked (session (step s w)) = false →
     resolvingEvent (event s) = true).
Proof.
  destruct (event s) as [| card | card | cell | | | | open] eqn:Hev.
  - split; [| split]; try done.
    + intros _. split; [| by apply step_scan_click_emitted].
      by destruct (step_scan_click_cases s w Hev) as [[-> _] | (p & _ & -> & _)].
    + intros Hlock Hlock'.
      rewrite step_scan_click_locked in Hlock' by done. congruence.
  - destruct (step_card_click s w) as (Hr & Hs & He); [by rewrite Hev ..|].
    rewrite Hs. split; [done |]. split; congruence.
  - destruct (step_card_click s w) as (Hr & Hs & He); [by rewrite Hev ..|].
    rewrite Hs. split; [done |]. split; congruence.
  - destruct (step_card_click s w) as (Hr & Hs & He); [by rewrite Hev ..|].
    rewrite Hs. split; [done |]. split; congruence.
  - split; [done |]. split; [| done]. intros Hlock Hlock'.
    destruct (step_resolving s w) as [outcome Hstep]; [by rewrite Hev |].
    rewrite Hstep in Hlock'.
    destruct (react_resolveScan_cases outcome (disabledNow s) (languageNow s) w)
      as [[_ Hs] | (c & change & _ & _ & _ & Hs)];
      rewrite Hs in Hlock'; [congruence | discriminate].
  - split; [done |]. split; [| done]. intros Hlock Hlock'.
    destruct (step_resolving s w) as [outcome Hstep]; [by rewrite Hev |].
    rewrite Hstep in Hlock'.
    destruct (react_resolveScan_cases outcome (disabledNow s) (languageNow s) w)
      as [[_ Hs] | (c & change & _ & _ & _ & Hs)];
      rewrite Hs in Hlock'; [congruence | discriminate].
  - split; [done |]. split; [| done]. intros Hlock Hlock'.
    destruct (step_resolving s w) as [outcome Hstep]; [by rewrite Hev |].
    rewrite Hstep in Hlock'.
    destruct (react_resolveScan_cases outcome (disabledNow s) (languageNow s) w)
      as [[_ Hs] | (c & change & _ & _ & _ & Hs)];
      rewrite Hs in Hlock'; [congruence | discriminate].
  - destruct (step_open_change s w open Hev) as (Hr & Hs & He).
    rewrite Hs, He. split; [by split |]. simpl. split; congruence.
Qed.

Lemma step_preserves_lockCoherent (s : Stimulus) (w : World) :
  lockCoherent (session w) → lockCoherent (session (step s w)).
Proof.
  intros Hco.
  assert (Hun : lockCoherent unlocked).
  { unfold lockCoherent. simpl. split; [done | by intros [? ?]]. }
  destruct (event s) as [| card | card | cell | | | | open] eqn:Hev.
  - destruct (step_scan_click_cases s w Hev)
      as [[_ ->] | (p & _ & _ & ->)]; [done |].
    unfold lockCoherent. simpl. split; [by eexists | done].
  - destruct (step_card_click s w) as (_ & -> & _); by rewrite ?Hev.
  - destruct (step_card_click s w) as (_ & -> & _); by rewrite ?Hev.
  - destruct (step_card_click s w) as (_ & -> & _); by rewrite ?Hev.
  - destruct (step_resolving s w) as [outcome ->]; [by rewrite Hev |].
    by destruct (react_resolveScan_cases outcome (disabledNow s)
                   (languageNow s) w)
      as [[_ ->] | (c & change & _ & _ & _ & ->)].
  - destruct (step_resolving s w) as [outcome ->]; [by rewrite Hev |].
    by destruct (react_resolveScan_cases outcome (disabledNow s)
                   (languageNow s) w)
      as [[_ ->] | (c & change & _ & _ & _ & ->)].
  - destruct (step_resolving s w) as [outcome ->]; [by rewrite Hev |].
    by destruct (react_resolveScan_cases outcome (disabledNow s)
                   (languageNow s) w)
      as [[_ ->] | (c & change & _ & _ & _ & ->)].
  - destruct (step_open_change s w open Hev) as (_ & -> & _). exact Hco.
Qed.

(** X11. The two cells of the lock stay together: from a state in which
    [scanLocked] is true exactly when [currentScanId] is set, as in the
    initial state, every sequence of events, of any kind and under any
    props, leads to such a state. *)
Theorem lock_coherent_preserved (stimuli : list Stimulus) (w : World) :
  lockCoherent (session w) →
  lockCoherent (session (run stimuli w)) ∧ lockCoherent initialScannerState.
Proof.
  intros Hco. split.
  - revert w Hco. induction stimuli as [| s stimuli IH]; intros w Hco;
      [done |].
    unfold run. simpl. apply IH. by apply step_preserves_lockCoherent.
  - unfold lockCoherent. simpl. split; [done | by intros [? ?]].
Qed.

Lemma lock_coherent_preserved_witness :
  let w := {| roster := [pendingPassenger 1 1 2; pendingPassenger 2 2 1];
              session := initialScannerState; io := freshIo |} in
  let stimuli := [mkStimulus false "en" ScanButtonClick;
                  mkStimulus false "en" (DialogOpenChange false);
                  mkStimulus false "en" (ReturnClick 0);
                  mkStimulus false "en" DialogConfirm;
                  mkStimulus false "en" (AcceptClick 0)] in
  lockCoherent (session (run stimuli w)) ∧ lockCoherent initialScannerState.
Proof.
  apply (lock_coherent_preserved
           [mkStimulus false "en" ScanButtonClick;
            mkStimulus false "en" (DialogOpenChange false);
            mkStimulus false "en" (ReturnClick 0);
            mkStimulus false "en" DialogConfirm;
            mkStimulus false "en" (AcceptClick 0)]
           {| roster := [pendingPassenger 1 1 2; pendingPassenger 2 2 1];
              session := initialScannerState; io := freshIo |}).
  unfold lockCoherent. simpl. split; [discriminate | intros [c Hc]; discriminate].
Defined.

(* ===================================================================== *)
(** ** How scans follow one another *)
(* ===================================================================== *)

Lemma scannable_spreadError (p : Passenger) : scannable (spreadError p) = false.
Proof. reflexivity. Qed.

Lemma scannable_spreadScanned (p : Passenger) (qr : QrData.t) :
  scannable (spreadScanned p qr) = false.
Proof. reflexivity. Qed.

(** X12. A failed passenger is not offered again.  After a failure on an
    active session every passenger of the session's identifier is in
    error, and the next [handleStartScan], whatever its props, does not
    lock the session on that identifier: it goes to another passenger or
    finds nobody. *)
Theorem failed_passenger_not_rescanned (disabledNow disabledNext : bool)
    (lang1 lang2 : string) (w : World) (c : Z) :
  activeScanId (session w) c →
  let w1 := react disabledNow lang1 handleScanError w in
  (∀ p, p ∈ roster w1 → QueuePassenger.id p = c → scanStatus p = Error)
  ∧ currentScanId (session (react disabledNext lang2 handleStartScan w1))
    ≠ Some c.
Proof.
  intros Hact w1.
  destruct (react_handleScanError_active disabledNow lang1 w c Hact)
    as [Hr Hs]. fold w1 in Hr, Hs.
  assert (Herr : ∀ p, p ∈ roster w1 → QueuePassenger.id p = c →
                      scanStatus p = Error).
  { intros p Hp Hpc. rewrite Hr in Hp.
    apply list_elem_of_In, List.in_map_iff in Hp as (p0 & <- & Hp0).
    unfold hasId in *.
    destruct (Z.eqb_spec (QueuePassenger.id p0) c) as [Heq | Hne];
      [reflexivity | done]. }
  split; [exact Herr |].
  destruct disabledNext.
  { destruct (react_handleStartScan_disabled lang2 w1) as [_ ->].
    by rewrite Hs. }
  destruct (List.find scannable (roster w1)) as [p |] eqn:Hfind.
  - destruct (react_handleStartScan_some lang2 w1 p Hfind) as [_ ->].
    simpl. intros [= Hpc].
    destruct (List.find_some _ _ Hfind) as [Hin Hsc].
    apply list_elem_of_In in Hin. apply scannable_Pending in Hsc.
    rewrite (Herr p Hin Hpc) in Hsc. discriminate.
  - destruct (react_handleStartScan_none lang2 w1 Hfind) as [_ ->].
    by rewrite Hs.
Qed.

Lemma failed_passenger_not_rescanned_witness :
  let w := {| roster := [pendingPassenger 1 1 2; pendingPassenger 2 2 1];
              session := lockedOn 1; io := freshIo |} in
  let w1 := react false "en" handleScanError w in
  (∀ p, p ∈ roster w1 → QueuePassenger.id p = 1 → scanStatus p = Error)
  ∧ currentScanId (session (react false "ru" handleStartScan w1)) ≠ Some 1.
Proof.
  apply (failed_passenger_not_rescanned false false "en" "ru"
           {| roster := [pendingPassenger 1 1 2; pendingPassenger 2 2 1];
              session := lockedOn 1; io := freshIo |} 1).
  split; [reflexivity | lia].
Defined.

Lemma scan_button_hidden_helper (props : Props) :
  scanButtonRendered props = true → decisionCards props = [].
Proof.
  unfold scanButtonRendered, decisionCards. rewrite negb_true_iff.
  induction (passengers props) as [| p l IH]; simpl; [done |].
  destruct (awaitingDecision p); simpl; [discriminate | exact IH].
Qed.

(** X13. After a success that found its passenger, the passengers of the
    scan are on the accept/reject cards, the scan button is no longer
    rendered, and a click where it was does nothing: no second scan starts
    while a decision is outstanding. *)
Theorem scanned_passenger_awaits_decision (disabledNow : bool)
    (languageNow : string) (w : World) (c : Z) (p : Passenger)
    (click : Stimulus) :
  activeScanId (session w) c →
  List.find (hasId c) (roster w) = Some p →
  event click = ScanButtonClick →
  let w1 := react disabledNow languageNow handleScanSuccess w in
  let props1 := {| passengers := roster w1; disabled := disabledNow;
                   language := languageNow |} in
  (∀ q, q ∈ roster w1 → QueuePassenger.id q = c → q ∈ decisionCards props1)
  ∧ decisionCards props1 ≠ []
  ∧ scanButtonRendered props1 = false
  ∧ roster (step click w1) = roster w1
  ∧ session (step click w1) = unlocked
  ∧ emitted w1 (step click w1) = [].
Proof.
  intros Hact Hfind Hev w1 props1.
  destruct (react_handleScanSuccess_found disabledNow languageNow w c p
              Hact Hfind) as [Hr Hs]. fold w1 in Hr, Hs.
  assert (Hcards : ∀ q, q ∈ roster w1 → QueuePassenger.id q = c →
                        q ∈ decisionCards props1).
  { intros q Hq Hqc. apply (decisionCards_Scanned props1). split; [done |].
    rewrite Hr in Hq.
    apply list_elem_of_In, List.in_map_iff in Hq as (q0 & <- & Hq0).
    unfold hasId in *.
    destruct (Z.eqb_spec (QueuePassenger.id q0) c) as [Heq | Hne];
      [| done].
    split; [reflexivity | by eexists]. }
  assert (Hsome : ∃ q, q ∈ roster w1 ∧ QueuePassenger.id q = c).
  { destruct (find_hasId c _ p Hfind) as [Hin Hid].
    apply list_elem_of_lookup in Hin as [i Hi].
    eexists. split.
    - rewrite Hr. eapply list_elem_of_lookup_2.
      by apply (targeted_map_hit c (λ q, spreadScanned q _) _ i p).
    - exact Hid. }
  assert (Hne : decisionCards props1 ≠ []).
  { destruct Hsome as (q & Hq & Hqc). intros Hnil.
    pose proof (Hcards q Hq Hqc) as Hin. rewrite Hnil in Hin.
    by apply elem_of_nil in Hin. }
  assert (Hbtn : scanButtonRendered props1 = false).
  { destruct (scanButtonRendered props1) eqn:Hb; [| done].
    by apply scan_button_hidden_helper in Hb. }
  split; [exact Hcards |]. split; [exact Hne |]. split; [exact Hbtn |].
  assert (Hstep : step click w1 = w1).
  { unfold step. apply react_quiet. intros io1. rewrite Hev. simpl.
    unfold scanButtonRendered in *. simpl in *.
    destruct (existsb awaitingDecision (roster w1)); [done | discriminate]. }
  rewrite Hstep. split; [done |]. split; [done | apply emitted_same].
Qed.

Lemma scanned_passenger_awaits_decision_witness :
  let w := {| roster := [pendingPassenger 1 1 2; pendingPassenger 2 2 1];
              session := lockedOn 1; io := freshIo |} in
  let click := mkStimulus false "en" ScanButtonClick in
  let w1 := react false "en" handleScanSuccess w in
  let props1 := {| passengers := roster w1; disabled := false;
                   language := "en" |} in
  (∀ q, q ∈ roster w1 → QueuePassenger.id q = 1 → q ∈ decisionCards props1)
  ∧ decisionCards props1 ≠ []
  ∧ scanButtonRendered props1 = false
  ∧ roster (step click w1) = roster w1
  ∧ session (step click w1) = unlocked
  ∧ emitted w1 (step click w1) = [].
Proof.
  apply (scanned_passenger_awaits_decision false "en"
           {| roster := [pendingPassenger 1 1 2; pendingPassenger 2 2 1];
              session := lockedOn 1; io := freshIo |}
           1 (pendingPassenger 1 1 2)
           (mkStimulus false "en" ScanButtonClick)).
  - split; [reflexivity | lia].
  - reflexivity.
  - reflexivity.
Defined.

(** Every way a resolution can rewrite the list: not at all, or by
    replacing the passengers of the session's identifier with passengers of
    the same identifier that are no longer scannable. *)
Lemma react_resolveScan_shape (outcome : ScanOutcome) d lang (w : World) :
  roster (react d lang (resolveScan outcome) w) = roster w
  ∨ ∃ c change,
      activeScanId (session w) c
      ∧ (∀ p, QueuePassenger.id (change p) = QueuePassenger.id p)
      ∧ (∀ p, scannable (change p) = false)
      ∧ (outcome = Failure
         ∨ is_Some (List.find (hasId c) (roster w)))
      ∧ roster (react d lang (resolveScan outcome) w)
        = List.map (λ p, if hasId c p then change p else p) (roster w).
Proof.
  destruct (falsyScanId (currentScanId (session w))) eqn:Hf.
  { left. destruct outcome; simpl.
    - by apply react_handleScanSuccess_inactive.
    - by apply react_handleScanError_inactive. }
  destruct (not_falsy_active _ Hf) as [c Hact].
  destruct outcome as [sum recipient |]; simpl.
  - destruct (List.find (hasId c) (roster w)) as [p |] eqn:Hfind.
    + right. exists c. eexists. split; [exact Hact |].
      split; [| split; [| split;
        [right; by eexists
        | exact (proj1 (react_handleScanSuccess_found d lang w c p
                          Hact Hfind))]]];
        reflexivity.
    + left. by apply (react_handleScanSuccess_missing d lang w c).
  - right. exists c, spreadError. split; [exact Hact |].
    split; [reflexivity |]. split; [reflexivity |]. split; [by left |].
    by apply react_handleScanError_active.
Qed.

Lemma scannableCount_targeted_le (c : Z) (change : Passenger → Passenger)
    (l : list Passenger) :
  (∀ p, scannable (change p) = false) →
  (scannableCount (List.map (λ p, if hasId c p then change p else p) l)
   ≤ scannableCount l)%nat.
Proof.
  intros Hch. unfold scannableCount.
  induction l as [| p l IH]; simpl; [lia |].
  destruct (hasId c p).
  - rewrite Hch. destruct (scannable p); simpl; lia.
  - destruct (scannable p); simpl; lia.
Qed.

Lemma scannableCount_targeted_lt (c : Z) (change : Passenger → Passenger)
    (l : list Passenger) (p : Passenger) :
  (∀ p, scannable (change p) = false) →
  p ∈ l → hasId c p = true → scannable p = true →
  (scannableCount (List.map (λ p, if hasId c p then change p else p) l)
   < scannableCount l)%nat.
Proof.
  intros Hch Hin Hid Hsc.
  induction l as [| q l IH]; [by apply elem_of_nil in Hin |].
  pose proof (scannableCount_targeted_le c change l Hch) as Hle.
  unfold scannableCount in *. simpl.
  apply elem_of_cons in Hin as [<- | Hin].
  - rewrite Hid, Hch, Hsc. simpl. lia.
  - specialize (IH Hin). destruct (hasId c q).
    + rewrite Hch. destruct (scannable q); simpl; lia.
    + destruct (scannable q); simpl; lia.
Qed.

(** X14. Every resolved scan uses up a candidate.  When the session is
    active on a pending passenger of the list, a resolution, success or
    failure, leaves strictly fewer scannable passengers than before: a
    queue of n passengers is exhausted after at most n resolved scans. *)
Theorem resolved_scan_consumes_candidate (outcome : ScanOutcome)
    (disabledNow : bool) (languageNow : string) (w : World) (c : Z)
    (p : Passenger) :
  activeScanId (session w) c →
  p ∈ roster w → QueuePassenger.id p = c → scanStatus p = Pending →
  (scannableCount
     (roster (react disabledNow languageNow (resolveScan outcome) w))
   < scannableCount (roster w))%nat.
Proof.
  intros Hact Hin Hid Hpending.
  assert (Hhit : hasId c p = true) by (by apply Z.eqb_eq).
  apply scannable_Pending in Hpending.
  destruct (activeScanId_truthy _ _ Hact) as [Hf Hd].
  destruct outcome as [sum recipient |].
  - destruct (find_exists (hasId c) (roster w) p Hin Hhit) as [p0 Hfind].
    change (resolveScan (Success sum recipient)) with handleScanSuccess.
    destruct (react_handleScanSuccess_found disabledNow languageNow w c p0
                Hact Hfind) as [-> _].
    by apply (scannableCount_targeted_lt c (λ q, spreadScanned q _) _ p).
  - change (resolveScan Failure) with handleScanError.
    destruct (react_handleScanError_active disabledNow languageNow w c Hact)
      as [-> _].
    by apply (scannableCount_targeted_lt c spreadError _ p).
Qed.

Lemma resolved_scan_consumes_candidate_witness :
  let w := {| roster := [pendingPassenger 1 1 2; pendingPassenger 2 2 1];
              session := lockedOn 2; io := freshIo |} in
  (scannableCount (roster (react false "en" (resolveScan Failure) w))
   < scannableCount (roster w))%nat.
Proof.
  apply (resolved_scan_consumes_candidate Failure false "en"
           {| roster := [pendingPassenger 1 1 2; pendingPassenger 2 2 1];
              session := lockedOn 2; io := freshIo |}
           2 (pendingPassenger 2 2 1)).
  - split; [reflexivity | lia].
  - simpl. apply list_elem_of_further, list_elem_of_here.
  - reflexivity.
  - reflexivity.
Defined.

(** X15. No scan operation makes a passenger pending again.  Across a click
    on the scan button or any callback of the dialog, a passenger that is
    scanned or in error keeps its place and its identifier and is still
    scanned or in error afterwards. *)
Theorem scans_never_restore_pending (s : Stimulus) (w : World) (i : nat)
    (p : Passenger) :
  scanOperation (event s) = true →
  roster w !! i = Some p →
  scanStatus p ≠ Pending →
  ∃ p', roster (step s w) !! i = Some p'
        ∧ QueuePassenger.id p' = QueuePassenger.id p
        ∧ scanStatus p' ≠ Pending.
Proof.
  intros Hscan Hi Hp.
  assert (Hsame : roster (step s w) = roster w →
                  ∃ p', roster (step s w) !! i = Some p'
                        ∧ QueuePassenger.id p' = QueuePassenger.id p
                        ∧ scanStatus p' ≠ Pending).
  { intros ->. by exists p. }
  destruct (event s) as [| | | | | | | open] eqn:Hev; try discriminate.
  - apply Hsame.
    by destruct (step_scan_click_cases s w Hev) as [[-> _] | (q & _ & -> & _)].
  - destruct (step_resolving s w) as [outcome Hstep]; [by rewrite Hev |].
    rewrite Hstep in *.
    destruct (react_resolveScan_shape outcome (disabledNow s) (languageNow s) w)
      as [Hr | (c & change & _ & Hid & Hch & _ & Hr)]; [by apply Hsame |].
    rewrite Hr. exists (if hasId c p then change p else p).
    split; [by apply (targeted_map_lookup c change) |].
    destruct (hasId c p); [| done]. split; [apply Hid |].
    intros Hpend%scannable_Pending. by rewrite Hch in Hpend.
  - destruct (step_resolving s w) as [outcome Hstep]; [by rewrite Hev |].
    rewrite Hstep in *.
    destruct (react_resolveScan_shape outcome (disabledNow s) (languageNow s) w)
      as [Hr | (c & change & _ & Hid & Hch & _ & Hr)]; [by apply Hsame |].
    rewrite Hr. exists (if hasId c p then change p else p).
    split; [by apply (targeted_map_lookup c change) |].
    destruct (hasId c p); [| done]. split; [apply Hid |].
    intros Hpend%scannable_Pending. by rewrite Hch in Hpend.
  - destruct (step_resolving s w) as [outcome Hstep]; [by rewrite Hev |].
    rewrite Hstep in *.
    destruct (react_resolveScan_shape outcome (disabledNow s) (languageNow s) w)
      as [Hr | (c & change & _ & Hid & Hch & _ & Hr)]; [by apply Hsame |].
    rewrite Hr. exists (if hasId c p then change p else p).
    split; [by apply (targeted_map_lookup c change) |].
    destruct (hasId c p); [| done]. split; [apply Hid |].
    intros Hpend%scannable_Pending. by rewrite Hch in Hpend.
  - apply Hsame. by destruct (step_open_change s w open Hev) as (-> & _).
Qed.

Lemma scans_never_restore_pending_witness :
  let w := {| roster := [spreadError (pendingPassenger 1 1 2);
                         pendingPassenger 2 2 1];
              session := lockedOn 1; io := freshIo |} in
  let s := mkStimulus false "en" DialogConfirm in
  ∃ p', roster (step s w) !! 0%nat = Some p'
        ∧ QueuePassenger.id p'
          = QueuePassenger.id (spreadError (pendingPassenger 1 1 2))
        ∧ scanStatus p' ≠ Pending.
Proof.
  apply (scans_never_restore_pending (mkStimulus false "en" DialogConfirm)
           {| roster := [spreadError (pendingPassenger 1 1 2);
                         pendingPassenger 2 2 1];
              session := lockedOn 1; io := freshIo |}
           0 (spreadError (pendingPassenger 1 1 2))).
  - reflexivity.
  - reflexivity.
  - simpl. discriminate.
Defined.

(* ===================================================================== *)
(** ** The grid *)
(* ===================================================================== *)

Lemma returnOffered_status (p : Passenger) :
  returnOffered p = true
  ↔ scanStatus p = Error
    ∨ (scanStatus p = Scanned ∧ is_Some (QueuePassenger.qrData p)).
Proof.
  unfold returnOffered, scanStatus.
  rewrite orb_true_iff, andb_true_iff, bool_decide_eq_true.
  destruct (truthy (QueuePassenger.qrError p)),
           (truthy (QueuePassenger.scanned p)); intuition congruence.
Qed.

Lemma gridCells_lookup (props : Props) (cell : nat) (p : Passenger) :
  gridCells props !! cell = Some p
  ↔ (cell < 5)%nat ∧ passengers props !! cell = Some p.
Proof.
  unfold gridCells. rewrite lookup_take_Some. tauto.
Qed.

(** X16. The return button.  A click on the return button of a grid cell
    never touches the passenger list or the session.  It calls [onReturn]
    only when the component is not disabled, for a passenger among the
    first five of the list that is in error or is scanned with [qrData],
    with that passenger's identifier, after one console entry; in every
    other case it does nothing. *)
Theorem return_gated_by_render (s : Stimulus) (w : World) (cell : nat) :
  event s = ReturnClick cell →
  roster (step s w) = roster w
  ∧ session (step s w) = session w
  ∧ (emitted w (step s w) = []
     ∨ ∃ p,
         (cell < 5)%nat ∧ roster w !! cell = Some p
         ∧ disabledNow s = false
         ∧ (scanStatus p = Error
            ∨ (scanStatus p = Scanned ∧ is_Some (QueuePassenger.qrData p)))
         ∧ emitted w (step s w)
           = [clickLog "return:clicked" (QueuePassenger.id p)
                (wallclock (io w) (ticks (io w)));
              OnReturn (QueuePassenger.id p)]).
Proof.
  intros Hev. unfold step. rewrite emitted_react. unfold react.
  rewrite Hev. simpl.
  destruct (gridCells _ !! cell) as [p |] eqn:Hcell; [| by repeat split; left].
  destruct (returnOffered p) eqn:Hret; simpl; [| by repeat split; left].
  destruct (disabledNow s) eqn:Hd; simpl; [by repeat split; left |].
  unfold handleReturn; run_act. split; [done |]. split; [done |].
  right. exists p.
  apply (gridCells_lookup
           {| passengers := roster w; disabled := false;
              language := languageNow s |}) in Hcell as [Hlt Hp].
  split; [done |]. split; [done |]. split; [done |].
  split; [by apply returnOffered_status | reflexivity].
Qed.

Lemma return_gated_by_render_witness :
  let w := {| roster := [spreadError (pendingPassenger 1 1 2)];
              session := initialScannerState; io := freshIo |} in
  let s := mkStimulus false "en" (ReturnClick 0) in
  roster (step s w) = roster w
  ∧ session (step s w) = session w
  ∧ (emitted w (step s w) = []
     ∨ ∃ p,
         (0 < 5)%nat ∧ roster w !! 0%nat = Some p
         ∧ disabledNow s = false
         ∧ (scanStatus p = Error
            ∨ (scanStatus p = Scanned ∧ is_Some (QueuePassenger.qrData p)))
         ∧ emitted w (step s w)
           = [clickLog "return:clicked" (QueuePassenger.id p)
                (wallclock (io w) (ticks (io w)));
              OnReturn (QueuePassenger.id p)]).
Proof.
  apply (return_gated_by_render (mkStimulus false "en" (ReturnClick 0))
           {| roster := [spreadError (pendingPassenger 1 1 2)];
              session := initialScannerState; io := freshIo |} 0).
  reflexivity.
Defined.

(** X17. The three conditions of a grid cell agree with one another.  The
    return button is there exactly on the red and the green cells; the
    icons are there exactly for a pending passenger; the two are never
    there together.  A cell has neither exactly when its passenger is
    scanned without [qrData]: such a passenger is not scannable and has no
    accept/reject card either, so no control of the component reaches it. *)
Theorem grid_cell_consistent (p : Passenger) :
  let cell := renderCell p in
  (cellReturn cell = true
   ↔ cellClass cell = CellRed ∨ cellClass cell = CellGreen)
  ∧ (is_Some (cellIcons cell) ↔ scanStatus p = Pending)
  ∧ ¬ (cellReturn cell = true ∧ is_Some (cellIcons cell))
  ∧ (cellReturn cell = false ∧ cellIcons cell = None
     ↔ scanStatus p = Scanned ∧ QueuePassenger.qrData p = None)
  ∧ (scanStatus p = Scanned ∧ QueuePassenger.qrData p = None →
     scannable p = false ∧ awaitingDecision p = false).
Proof.
  assert (Hnone : ¬ is_Some (@None IconsResult)) by (by intros [x Hx]).
  assert (Hsome : ∀ x : IconsResult, is_Some (Some x)) by (by eexists).
  assert (Hqn : ¬ is_Some (@None QrData.t)) by (by intros [x Hx]).
  unfold renderCell, cellStyle, returnOffered, iconsShown, scanStatus,
    scannable, awaitingDecision. simpl.
  destruct (truthy (QueuePassenger.qrError p)),
           (truthy (QueuePassenger.scanned p)),
           (QueuePassenger.qrData p) as [qr |],
           (QueuePassenger.isFirst p); simpl;
    try rewrite bool_decide_eq_true_2 by (by eexists);
    try rewrite bool_decide_eq_false_2 by done;
    simpl; intuition (try discriminate; try congruence; eauto).
Qed.

(** X18. The grid shows the first five passengers of the list, in order, and
    nothing else: it has min(5, length) cells, the cell at place [i] is the
    rendering of the passenger at place [i], and a passenger from the sixth
    on has no cell, hence no return button, while [handleStartScan]
    searches the whole list. *)
Theorem grid_shows_first_five (props : Props) :
  length (renderGrid props) = Nat.min 5 (length (passengers props))
  ∧ (∀ i cell, renderGrid props !! i = Some cell
               ↔ (i < 5)%nat
                 ∧ ∃ p, passengers props !! i = Some p ∧ cell = renderCell p)
  ∧ (∀ i, (5 ≤ i)%nat → renderGrid props !! i = None)
  ∧ (∀ filler p,
       length filler = 5%nat → scanStatus p = Pending →
       Forall (λ q, scanStatus q ≠ Pending) filler →
       passengers props = (filler ++ [p])%list →
       List.find scannable (passengers props) = Some p
       ∧ passengers props !! 5%nat = Some p
       ∧ renderGrid props !! 5%nat = None).
Proof.
  unfold renderGrid.
  split; [unfold gridCells; by rewrite length_fmap, length_take |].
  split.
  { intros i cell. rewrite list_lookup_fmap, fmap_Some.
    split.
    - intros (p & [Hlt Hp]%gridCells_lookup & ->). eauto.
    - intros (Hlt & p & Hp & ->). exists p. split; [| done].
      by apply gridCells_lookup. }
  assert (Hge : ∀ i, (5 ≤ i)%nat → (renderCell <$> gridCells props) !! i = None).
  { intros i Hi. rewrite list_lookup_fmap. unfold gridCells.
    by rewrite lookup_take_ge. }
  split; [exact Hge |].
  intros filler p Hlen Hp Hfill Heq.
  split; [| split; [| by apply Hge]].
  - rewrite Heq. clear Heq Hlen.
    induction Hfill as [| q filler Hq _ IH]; simpl.
    + apply scannable_Pending in Hp. by rewrite Hp.
    + destruct (scannable q) eqn:Hsc; [| exact IH].
      apply scannable_Pending in Hsc. done.
  - rewrite Heq, lookup_app_r by lia. by rewrite Hlen.
Qed.

(** X19. [renderPassengerIcons] draws min(count, 3) icons, so never more
    than three, keyed 0, 1, 2 in order without repetition, and none for a
    count of zero; a negative count makes [Array(...)] throw a RangeError
    instead of drawing nothing. *)
Theorem renderPassengerIcons_spec (count : Z) :
  (count < 0 ↔ renderPassengerIcons count = ThrowsRangeError)
  ∧ (0 ≤ count →
     ∃ keys,
       renderPassengerIcons count = Icons keys
       ∧ Z.of_nat (length keys) = Z.min count 3
       ∧ (length keys ≤ 3)%nat
       ∧ NoDup keys
       ∧ ∀ k, k ∈ keys ↔ 0 ≤ k < Z.min count 3).
Proof.
  unfold renderPassengerIcons. cbv zeta.
  destruct (Z.ltb_spec (Z.min count 3) 0) as [Hneg | Hpos].
  - split; [split; [done | lia] | lia].
  - split; [split; [lia | discriminate] |].
    intros _. eexists. split; [reflexivity |].
    rewrite length_fmap, length_seq.
    split; [lia |]. split; [lia |]. split.
    + apply (NoDup_fmap_2 _), NoDup_seq.
    + intros k. rewrite list_elem_of_fmap. split.
      * intros (n & -> & Hn%elem_of_seq). lia.
      * intros Hk. exists (Z.to_nat k). split; [lia |].
        apply elem_of_seq. lia.
Qed.
